(** * deploy-cloud-functions: [src/util.ts]

    A shallow embedding of the directory packaging helpers
    ([zipDir], [getGcloudIgnores], [formatEntry]) and the properties
    of the packaging specification that concern them.

    Strings are ECMAScript strings: sequences of UTF-16 code units.
    The Node and npm functions the file calls are not part of the
    repository.  The disk that [fs] sees is a function from paths to
    nodes; [path.posix.join], the matcher of [ignore] (5.2), the walk of
    [archiver] (5.3), [String.prototype.toUpperCase] and the conversion
    of a number to a string are section variables.  The synchronous code runs in a small monad of results,
    exceptions and a trace of the calls issued; what happens after
    [zipDir] has returned is a transition function on the events its
    listeners receive. *)

From Stdlib Require Import List NArith ZArith Bool Lia.
From Stdlib Require Import Ascii String DecimalString.
From Stdlib Require DecimalFacts DecimalPos.
Import ListNotations.

(** ** ECMAScript strings *)

Module JS.

(** A string is the list of its UTF-16 code units. *)
Definition jsstring := list N.

(** [lit] embeds a source literal, all of whose characters are ASCII. *)
Definition lit (s : string) : jsstring :=
  map N_of_ascii (list_ascii_of_string s).

Definition LF : N := 10.
Definition CR : N := 13.
Definition SLASH : N := 47.

(** WhiteSpace and LineTerminator code points of ECMA-262, the set
    [String.prototype.trim] strips.  All of them are single code units. *)
Definition isWhiteSpace (c : N) : bool :=
  existsb (N.eqb c)
    [9; 10; 11; 12; 13; 32; 160; 5760; 8232; 8233; 8239; 8287; 12288; 65279]%N
  || ((8192 <=? c) && (c <=? 8202))%N.

Fixpoint trimStart (s : jsstring) : jsstring :=
  match s with
  | c :: s' => if isWhiteSpace c then trimStart s' else s
  | [] => []
  end.

Definition trimEnd (s : jsstring) : jsstring := rev (trimStart (rev s)).

(** [s.trim()] *)
Definition trim (s : jsstring) : jsstring := trimEnd (trimStart s).

(** [s.split(/\r?\n/)]: the pattern is tried at each position from the
    left; it matches a line feed, or a carriage return directly followed
    by one.  [cur] holds, reversed, the code units since the last match. *)
Fixpoint splitLines (cur : jsstring) (s : jsstring) : list jsstring :=
  match s with
  | [] => [rev cur]
  | c :: s' =>
      if (c =? LF)%N then rev cur :: splitLines [] s'
      else if (c =? CR)%N then
        match s' with
        | d :: s'' =>
            if (d =? LF)%N then rev cur :: splitLines [] s''
            else splitLines (c :: cur) s'
        | [] => splitLines (c :: cur) s'
        end
      else splitLines (c :: cur) s'
  end.

Definition split (s : jsstring) : list jsstring := splitLines [] s.

(** The decimal numeral of an integer.  It is what the conversion of a
    number to a string gives for a safe integer, one of magnitude below
    2^53: such an integer is a number, and its shortest numeral that reads
    back as the same number is the numeral of the integer itself. *)
Definition decimalNumeral (z : Z) : jsstring :=
  lit (NilZero.string_of_int (Z.to_int z)).

(** [Number.isSafeInteger] on an integer. *)
Definition isSafeInteger (z : Z) : bool := (Z.abs z <? 2 ^ 53)%Z.

(** [s[0]]: the first code unit as a string, [undefined] on the empty
    string. *)
Definition index0 (s : jsstring) : option jsstring :=
  match s with
  | c :: _ => Some [c]
  | [] => None
  end.

(** A string is falsy exactly when it is empty, a number when it is 0. *)
Definition truthyString (s : jsstring) : bool :=
  match s with [] => false | _ :: _ => true end.

Definition truthyNumber (z : Z) : bool := negb (z =? 0)%Z.

(** [x || d] for [x : string | undefined] and a string [d]. *)
Definition orString (x : option jsstring) (d : jsstring) : jsstring :=
  match x with
  | Some s => if truthyString s then s else d
  | None => d
  end.

(** [x || d] for [x : number | undefined] and a string [d]. *)
Definition orNumber (x : option Z) (d : jsstring) : Z + jsstring :=
  match x with
  | Some z => if truthyNumber z then inl z else inr d
  | None => inr d
  end.

(** Interpolation of a value into a template literal. *)
Definition showString (x : option jsstring) : jsstring :=
  match x with
  | Some s => s
  | None => lit "undefined"
  end.

Definition showNumberOrString (numberToString : Z -> jsstring)
    (x : Z + jsstring) : jsstring :=
  match x with
  | inl z => numberToString z
  | inr s => s
  end.

(** The ASCII part of the upper-case mapping. *)
Definition isAscii (c : N) : bool := (c <? 128)%N.

Definition upperAscii (c : N) : N :=
  if ((97 <=? c) && (c <=? 122))%N then (c - 32)%N else c.

End JS.

Import JS.

(** ** The module [util.ts] *)

Module Util.

(** *** Data *)

(** [Error]: a thrown or emitted error value, with its message. *)
Inductive error := Error (message : jsstring).

(** [RealEntryData]: [Archiver.EntryData] extended with [sourcePath] and
    [type]; the fields the module reads.  Optional fields are [None] when
    absent.  A mode is taken as the integer a file mode is. *)
Record EntryData := {
  name : jsstring;
  mode : option Z;
  sourcePath : option jsstring;
  type : option jsstring
}.

(** [OnZipEntryFunction = (entry) => void].  What a caller's function does
    is its own business; each call is recorded (see [notified]). *)
Definition OnZipEntryFunction := EntryData -> unit.

Record ZipOptions := { onZipEntry : option OnZipEntryFunction }.

(** What is found at a path of the disk. *)
Inductive node :=
| Directory
| File (content : jsstring)
| Unreadable (e : error).

Definition filesystem := jsstring -> option node.

(** The calls that reach the disk or the archive writer, as they are
    issued. *)
Inductive op :=
| ExistsSync (p : jsstring)
| ReadFileSync (p : jsstring)
| CreateWriteStream (p : jsstring)
| ArchiveDirectory (dir : jsstring) (filtered : bool)
| ArchiveFinalize.

(** The path an operation creates or truncates, if any. *)
Definition writes (o : op) : option jsstring :=
  match o with
  | CreateWriteStream p => Some p
  | _ => None
  end.

Definition isRead (o : op) : bool :=
  match o with
  | ReadFileSync _ => true
  | _ => false
  end.

Definition opens (o : op) : bool :=
  match o with CreateWriteStream _ => true | _ => false end.

Definition enqueues (o : op) : bool :=
  match o with ArchiveDirectory _ _ => true | _ => false end.

Definition finalizes (o : op) : bool :=
  match o with ArchiveFinalize => true | _ => false end.

(** How many operations of a kind a trace holds. *)
Definition count (f : op -> bool) (t : list op) : nat :=
  List.length (filter f t).

(** *** Synchronous code: results, exceptions and the trace of calls *)

Inductive outcome (A : Type) :=
| Returned (a : A)
| Thrown (e : error).

Arguments Returned {A} a.
Arguments Thrown {A} e.

Definition io (A : Type) : Type := outcome A * list op.

Definition ret {A} (a : A) : io A := (Returned a, []).

Definition throw {A} (e : error) : io A := (Thrown e, []).

Definition bind {A B} (m : io A) (f : A -> io B) : io B :=
  match m with
  | (Returned a, t) => let (r, t') := f a in (r, t ++ t')
  | (Thrown e, t) => (Thrown e, t)
  end.

Definition perform {A} (o : op) (r : outcome A) : io A := (r, [o]).

Declare Scope io_scope.
Delimit Scope io_scope with io.
Notation "x <- m ;; k" := (bind m (fun x => k))
  (at level 61, m at next level, right associativity) : io_scope.
Notation "m ;; k" := (bind m (fun _ => k))
  (at level 61, right associativity) : io_scope.
Local Open Scope io_scope.

(** *** Promises and events *)

Inductive settlement :=
| Pending
| Fulfilled (value : jsstring)
| Rejected (reason : error).

(** [resolve] and [reject] settle a pending promise and do nothing to a
    settled one. *)
Definition resolve (v : jsstring) (s : settlement) : settlement :=
  match s with Pending => Fulfilled v | _ => s end.

Definition reject (e : error) (s : settlement) : settlement :=
  match s with Pending => Rejected e | _ => s end.

(** The events [zipDir] listens to: [entry], [warning] and [error] of the
    archive writer, [finish] of the output stream. *)
Inductive event :=
| ArchiveEntry (entry : EntryData)
| ArchiveWarning (err : error)
| ArchiveError (err : error)
| OutputFinish.

(** A call of [zipDir] that got as far as its promise: the promise, the
    function given to [archive.directory], the entries that call puts in
    the archive, and the entries the caller's observer was called with. *)
Record packing := {
  promise : settlement;
  gIgnoreF : option (EntryData -> option EntryData);
  archived : list EntryData;
  notified : list EntryData
}.

(** *** [fs] *)

Section Disk.

Variable fs : filesystem.

Definition existsSync (p : jsstring) : io bool :=
  perform (ExistsSync p)
    (Returned (match fs p with Some _ => true | None => false end)).

Definition ENOENT (p : jsstring) : error :=
  Error (lit "ENOENT: no such file or directory, open '" ++ p ++ lit "'").

Definition EISDIR : error :=
  Error (lit "EISDIR: illegal operation on a directory, read").

(** [fs.readFileSync(p, { encoding: 'utf-8' }).toString()] *)
Definition readFileSync (p : jsstring) : io jsstring :=
  perform (ReadFileSync p)
    (match fs p with
     | Some (File content) => Returned content
     | Some (Unreadable e) => Thrown e
     | Some Directory => Thrown EISDIR
     | None => Thrown (ENOENT p)
     end).

(** [fs.createWriteStream(p)]: the stream is opened later, the call
    itself returns. *)
Definition createWriteStream (p : jsstring) : io unit :=
  perform (CreateWriteStream p) (Returned tt).

End Disk.

(** *** [archiver] *)

(** [archive.directory(dir, false, data)]: of the entries the walk of
    [dir] yields, those for which [data] returns [false] are skipped;
    without [data] none is. *)
Fixpoint directory (walked : list EntryData)
    (data : option (EntryData -> option EntryData)) : list EntryData :=
  match walked with
  | [] => []
  | file :: rest =>
      match data with
      | None => file :: directory rest data
      | Some f =>
          match f file with
          | Some file' => file' :: directory rest data
          | None => directory rest data
          end
      end
  end.

Definition archiveDirectory (dir : jsstring)
    (data : option (EntryData -> option EntryData)) : io unit :=
  perform
    (ArchiveDirectory dir (match data with Some _ => true | None => false end))
    (Returned tt).

Definition archiveFinalize : io unit := perform ArchiveFinalize (Returned tt).

Section Packager.

(** The disk during the synchronous part of the call. *)
Variable fs : filesystem.

(** [path.posix.join] *)
Variable join : jsstring -> jsstring -> jsstring.

(** [ignore().add(rules).ignores(name)] *)
Variable ignores : list jsstring -> jsstring -> bool.

(** The entries the walk of a directory by [archiver] yields, named
    relative to it. *)
Variable walk : jsstring -> list EntryData.

(** [getGcloudIgnores] *)
Definition getGcloudIgnores (dir : jsstring) : io (list jsstring) :=
  let gcloudIgnorePath := join dir (lit ".gcloudignore") in
  found <- existsSync fs gcloudIgnorePath ;;
  if negb found then ret []
  else
    text <- readFileSync fs gcloudIgnorePath ;;
    ret (map trim (split text)).

(** The function [gIgnoreF] of [zipDir]. *)
Definition ignoreFilter (rules : list jsstring) (file : EntryData)
    : option EntryData :=
  if negb (ignores rules (name file)) then Some file else None.

(** The body of the promise of [zipDir].  Creating the archive writer,
    piping it to the output stream and registering the four listeners
    (see [emit]) issue no operation; the rules are loaded once for the
    test of their number and once more for the matcher. *)
Definition executor (dirPath outputPath : jsstring) : io packing :=
  createWriteStream outputPath ;;
  rules <- getGcloudIgnores dirPath ;;
  gIgnoreF <- (if (0 <? List.length rules)%nat
               then (rules' <- getGcloudIgnores dirPath ;;
                     ret (Some (ignoreFilter rules')))
               else ret None) ;;
  archiveDirectory dirPath gIgnoreF ;;
  archiveFinalize ;;
  ret {| promise := Pending;
         gIgnoreF := gIgnoreF;
         archived := directory (walk dirPath) gIgnoreF;
         notified := [] |}.

(** [new Promise(executor)]: an exception of the executor rejects the
    promise. *)
Definition newPromise (body : io packing) : io packing :=
  match body with
  | (Returned p, t) => (Returned p, t)
  | (Thrown e, t) =>
      (Returned {| promise := Rejected e; gIgnoreF := None;
                   archived := []; notified := [] |}, t)
  end.

(** [zipDir] *)
Definition zipDir (dirPath outputPath : jsstring) (opts : option ZipOptions)
    : io packing :=
  found <- existsSync fs dirPath ;;
  if negb found then throw (Error (lit "Unable to find " ++ dirPath))
  else newPromise (executor dirPath outputPath).

End Packager.

(** The listeners [zipDir] registers: [entry] calls the observer of the
    options when there is one, [warning] and [error] reject the promise
    with the error emitted, [finish] resolves it with the output path. *)
Definition emit (outputPath : jsstring) (opts : option ZipOptions)
    (p : packing) (ev : event) : packing :=
  match ev with
  | ArchiveEntry entry =>
      match opts with
      | Some {| onZipEntry := Some _ |} =>
          {| promise := promise p; gIgnoreF := gIgnoreF p;
             archived := archived p; notified := notified p ++ [entry] |}
      | _ => p
      end
  | ArchiveWarning err =>
      {| promise := reject err (promise p); gIgnoreF := gIgnoreF p;
         archived := archived p; notified := notified p |}
  | ArchiveError err =>
      {| promise := reject err (promise p); gIgnoreF := gIgnoreF p;
         archived := archived p; notified := notified p |}
  | OutputFinish =>
      {| promise := resolve outputPath (promise p); gIgnoreF := gIgnoreF p;
         archived := archived p; notified := notified p |}
  end.

(** The call after a sequence of events. *)
Definition run (outputPath : jsstring) (opts : option ZipOptions)
    (p : packing) (evs : list event) : packing :=
  fold_left (emit outputPath opts) evs p.

Definition isEntry (ev : event) : bool :=
  match ev with ArchiveEntry _ => true | _ => false end.

(** The call whose executor ran to its end, as [executor] returns it. *)
Definition started (data : option (EntryData -> option EntryData))
    (walked : list EntryData) : packing :=
  {| promise := Pending; gIgnoreF := data;
     archived := directory walked data; notified := [] |}.

(** The call whose executor threw, as [newPromise] returns it. *)
Definition failed (e : error) : packing :=
  {| promise := Rejected e; gIgnoreF := None; archived := []; notified := [] |}.

(** *** [formatEntry] *)

Section Format.

(** [String.prototype.toUpperCase].  Its Unicode tables are not written
    out; [upperCaseOnAscii] states all that is used of it. *)
Variable toUpperCase : jsstring -> jsstring.

(** The conversion of a number to a string, on the integral numbers a mode
    is.  Only its values on safe integers are written out, in
    [decimalOnSafeIntegers]: beyond them JavaScript prints the shortest
    numeral that reads back as the same double, in exponent notation from
    1e21 on. *)
Variable numberToString : Z -> jsstring.

(** [formatEntry] *)
Definition formatEntry (entry : EntryData) : jsstring :=
  let name := name entry in
  let mode := orNumber (mode entry) (lit "000") in
  let sourcePath := orString (sourcePath entry) (lit "unknown") in
  let type := index0 (toUpperCase (orString (type entry) (lit "unknown"))) in
  lit "[" ++ showString type ++ lit "] ("
    ++ showNumberOrString numberToString mode
    ++ lit ") " ++ name ++ lit " => " ++ sourcePath.

End Format.

(** On a string of ASCII characters, upper-casing maps each of [a]..[z]
    to its capital and leaves the others alone. *)
Definition upperCaseOnAscii (toUpperCase : jsstring -> jsstring) : Prop :=
  forall s, forallb isAscii s = true -> toUpperCase s = map upperAscii s.

(** A safe integer converts to its decimal numeral. *)
Definition decimalOnSafeIntegers (numberToString : Z -> jsstring) : Prop :=
  forall z, isSafeInteger z = true -> numberToString z = decimalNumeral z.

(** An entry as the spec words it: one of whose optional fields is
    missing, or present. *)
Definition onlyName (n : jsstring) : EntryData :=
  {| name := n; mode := None; sourcePath := None; type := None |}.

Definition withMode (m : option Z) (e : EntryData) : EntryData :=
  {| name := name e; mode := m; sourcePath := sourcePath e; type := type e |}.

Definition withSourcePath (s : option jsstring) (e : EntryData) : EntryData :=
  {| name := name e; mode := mode e; sourcePath := s; type := type e |}.

Definition withType (t : option jsstring) (e : EntryData) : EntryData :=
  {| name := name e; mode := mode e; sourcePath := sourcePath e; type := t |}.

(** Whether the options carry an observer: [opts?.onZipEntry]. *)
Definition observes (opts : option ZipOptions) : bool :=
  match opts with
  | Some {| onZipEntry := Some _ |} => true
  | _ => false
  end.

(** The entries that the [entry] events of a sequence carry, in order. *)
Fixpoint entriesOf (evs : list event) : list EntryData :=
  match evs with
  | [] => []
  | ArchiveEntry entry :: evs' => entry :: entriesOf evs'
  | _ :: evs' => entriesOf evs'
  end.

(** The first event of a sequence that is not an [entry] event. *)
Fixpoint firstSettling (evs : list event) : option event :=
  match evs with
  | [] => None
  | ArchiveEntry _ :: evs' => firstSettling evs'
  | ev :: _ => Some ev
  end.

(** What an event that is not an [entry] event makes of a pending
    promise. *)
Definition settles (outputPath : jsstring) (ev : option event) : settlement :=
  match ev with
  | Some (ArchiveWarning err) => Rejected err
  | Some (ArchiveError err) => Rejected err
  | Some OutputFinish => Fulfilled outputPath
  | _ => Pending
  end.

Definition hasFilter (p : packing) : bool :=
  match gIgnoreF p with Some _ => true | None => false end.

End Util.

(** ** A reference matcher *)

Module Gitignore.

(** The matching engine is the npm package [ignore], which is not part of
    the repository.  This module is the matcher that section 4.2 (step 5)
    and the glossary of the specification describe, for rules made of
    file-name characters and [*]. *)

Definition STAR : N := 42.
Definition BANG : N := 33.
Definition HASH : N := 35.

(** Modelled from the spec: glob wildcards; [*] stands for any run of code
    units within one component of a name. *)
Fixpoint glob (pat : jsstring) : jsstring -> bool :=
  match pat with
  | [] => fun s => match s with [] => true | _ :: _ => false end
  | p :: pat' =>
      if (p =? STAR)%N then
        fix star (s : jsstring) : bool :=
          glob pat' s || match s with _ :: s' => star s' | [] => false end
      else
        fun s =>
          match s with
          | c :: s' => (c =? p)%N && glob pat' s'
          | [] => false
          end
  end.

Record rule := { negative : bool; pattern : jsstring }.

(** Modelled from the spec: a rule prefixed with [!] is a negation
    pattern; blank lines and lines starting with [#] are no rules. *)
Definition parse (line : jsstring) : option rule :=
  match line with
  | [] => None
  | c :: rest =>
      if forallb isWhiteSpace line then None
      else if (c =? HASH)%N then None
      else if (c =? BANG)%N then Some {| negative := true; pattern := rest |}
      else Some {| negative := false; pattern := line |}
  end.

Fixpoint parseAll (lines : list jsstring) : list rule :=
  match lines with
  | [] => []
  | l :: ls =>
      match parse l with
      | Some r => r :: parseAll ls
      | None => parseAll ls
      end
  end.

(** Modelled from the spec: a negation pattern re-includes a path that an
    earlier rule excludes, so the last rule that matches decides. *)
Definition testOne (rules : list rule) (component : jsstring) : bool :=
  fold_left
    (fun ignored r =>
       if glob (pattern r) component then negb (negative r) else ignored)
    rules false.

Fixpoint components (cur : jsstring) (path : jsstring) : list jsstring :=
  match path with
  | [] => [rev cur]
  | c :: path' =>
      if (c =? SLASH)%N then rev cur :: components [] path'
      else components (c :: cur) path'
  end.

(** Modelled from the spec: the matcher [matches(pattern_set, path)] of the
    design notes.  A rule without [/] is unanchored: it is tried on every
    component of the name, parents first, and nothing below an excluded
    directory is re-included. *)
Definition ignores (lines : list jsstring) (path : jsstring) : bool :=
  existsb (testOne (parseAll lines)) (components [] path).

End Gitignore.

(** ** Sample disks and entries *)

Module Sample.

Import Util.

Fixpoint sameString (a b : jsstring) : bool :=
  match a, b with
  | [], [] => true
  | x :: a', y :: b' => (x =? y)%N && sameString a' b'
  | _, _ => false
  end.

(** [path.posix.join] on a directory path that needs no normalising. *)
Definition join (dir file : jsstring) : jsstring := dir ++ lit "/" ++ file.

(** Upper-casing of ASCII text. *)
Definition toUpperCase (s : jsstring) : jsstring := map upperAscii s.

(** The conversion of a safe integer to a string. *)
Definition numberToString (z : Z) : jsstring := decimalNumeral z.

Definition emptyDisk : filesystem := fun _ => None.

(** [/tmp/fn] without an ignore file. *)
Definition plainDisk : filesystem :=
  fun p => if sameString p (lit "/tmp/fn") then Some Directory else None.

(** [/tmp/fn] with an ignore file of the given content. *)
Definition ignoreDisk (content : jsstring) : filesystem :=
  fun p =>
    if sameString p (lit "/tmp/fn") then Some Directory
    else if sameString p (lit "/tmp/fn/.gcloudignore") then Some (File content)
    else None.

(** [/tmp/fn] with an ignore file that cannot be read. *)
Definition lockedDisk (e : error) : filesystem :=
  fun p =>
    if sameString p (lit "/tmp/fn") then Some Directory
    else if sameString p (lit "/tmp/fn/.gcloudignore") then Some (Unreadable e)
    else None.

Definition entryNamed (n : string) : EntryData := onlyName (lit n).

Definition walk (dir : jsstring) : list EntryData :=
  [entryNamed "keep.log"; entryNamed "other.log"; entryNamed "index.js"].

Definition EACCES : error := Error (lit "EACCES: permission denied").

(** A name of two lines. *)
Definition twoLines : jsstring := lit "a" ++ [LF] ++ lit "b".

(** An entry as the archive writer reports it, with all its fields. *)
Definition indexEntry : EntryData :=
  {| name := lit "index.js"; mode := Some 420%Z;
     sourcePath := Some (lit "/tmp/fn/index.js"); type := Some (lit "file") |}.

(** The rules [*.log] and [!keep.log], one to a line. *)
Definition logRules : jsstring := lit "*.log" ++ [LF] ++ lit "!keep.log".

(** Two blank lines and a final line feed. *)
Definition blankLines : jsstring := lit "  " ++ [CR; LF; 9%N; LF].

(** The same with padding, a carriage return and a final line feed. *)
Definition paddedRules : jsstring :=
  lit "  *.log " ++ [CR; LF] ++ [9%N] ++ lit "!keep.log" ++ [LF].

End Sample.

(** ** Vocabulary for statements about strings *)

Module Text.

(** A string that trimming leaves alone: neither end is white space. *)
Definition startsClean (s : jsstring) : Prop :=
  match s with
  | c :: _ => isWhiteSpace c = false
  | [] => True
  end.

Definition endsClean (s : jsstring) : Prop := startsClean (rev s).

Definition blank (s : jsstring) : Prop := forallb isWhiteSpace s = true.

(** LineTerminator code points of ECMA-262. *)
Definition isLineTerminator (c : N) : bool :=
  existsb (N.eqb c) [10; 13; 8232; 8233]%N.

Definition singleLine (s : jsstring) : Prop :=
  forallb (fun c => negb (isLineTerminator c)) s = true.

(** The lines of a text, as the pattern [\r?\n] delimits them: a line holds
    no line feed, and a carriage return in front of a line feed belongs to
    the delimiter. *)
Inductive Lines : jsstring -> list jsstring -> Prop :=
| Lines_last (l : jsstring) :
    ~ In LF l -> Lines l [l]
| Lines_lf (l rest : jsstring) (ls : list jsstring) :
    ~ In LF l -> hd_error (rev l) <> Some CR -> Lines rest ls ->
    Lines (l ++ LF :: rest) (l :: ls)
| Lines_crlf (l rest : jsstring) (ls : list jsstring) :
    ~ In LF l -> Lines rest ls ->
    Lines (l ++ CR :: LF :: rest) (l :: ls).

(** In [splitLines], the accumulator holding a carriage return that the
    next line feed would claim; it never does. *)
Definition pendingCR (cur s : jsstring) : Prop :=
  hd_error cur = Some CR /\ hd_error s = Some LF.

(** The decimal digits, and the number a string of digits reads as. *)
Definition isDigit (c : N) : bool := ((48 <=? c) && (c <=? 57))%N.

Definition decimalValue (s : jsstring) : N :=
  fold_left (fun value c => (10 * value + (c - 48))%N) s 0%N.

(** [s] is the decimal numeral of [n]: digits that read as [n], with no
    zero in front of another digit. *)
Definition numeralOf (n : N) (s : jsstring) : Prop :=
  s <> []
  /\ forallb isDigit s = true
  /\ (hd_error s = Some 48%N -> s = [48%N])
  /\ decimalValue s = n.

(** [ls.join(sep)] *)
Fixpoint joinLines (sep : jsstring) (ls : list jsstring) : jsstring :=
  match ls with
  | [] => []
  | l :: ls' =>
      match ls' with
      | [] => l
      | _ :: _ => l ++ sep ++ joinLines sep ls'
      end
  end.

(** A line as a text file holds it: no line feed in it, no carriage return
    at its end. *)
Definition plainLine (l : jsstring) : Prop :=
  ~ In LF l /\ hd_error (rev l) <> Some CR.

End Text.

(** ** What the string primitives compute *)

Module JSFacts.

Import Text.

Lemma trimStart_blank (s : jsstring) : blank s -> trimStart s = [].
Proof.
  unfold blank. induction s as [|c s IH]; simpl; [reflexivity|].
  destruct (isWhiteSpace c); simpl; [exact IH | discriminate].
Qed.

Lemma trimStart_clean (s : jsstring) : startsClean (trimStart s).
Proof.
  induction s as [|c s IH]; simpl; [exact I|].
  destruct (isWhiteSpace c) eqn:E; [exact IH | exact E].
Qed.

Lemma trimStart_suffix (s : jsstring) :
  exists ws, s = ws ++ trimStart s /\ blank ws.
Proof.
  induction s as [|c s [ws [Hs Hws]]]; simpl.
  - exists []. split; reflexivity.
  - destruct (isWhiteSpace c) eqn:E.
    + exists (c :: ws). split.
      * simpl. f_equal. exact Hs.
      * unfold blank in *. simpl. rewrite E. exact Hws.
    + exists []. split; reflexivity.
Qed.

Lemma blank_rev (s : jsstring) : blank s -> blank (rev s).
Proof.
  unfold blank. rewrite !forallb_forall. intros H c Hc.
  apply H. apply in_rev. exact Hc.
Qed.

Lemma trimEnd_prefix (s : jsstring) :
  exists ws, s = trimEnd s ++ ws /\ blank ws.
Proof.
  unfold trimEnd. destruct (trimStart_suffix (rev s)) as [ws [Hs Hws]].
  exists (rev ws). split.
  - rewrite <- rev_app_distr, <- Hs, rev_involutive. reflexivity.
  - apply blank_rev. exact Hws.
Qed.

Lemma trimEnd_clean (s : jsstring) : endsClean (trimEnd s).
Proof.
  unfold endsClean, trimEnd. rewrite rev_involutive. apply trimStart_clean.
Qed.

Lemma trimEnd_keeps_start (s : jsstring) :
  startsClean s -> startsClean (trimEnd s).
Proof.
  intros H. destruct (trimEnd_prefix s) as [ws [Hs _]].
  destruct (trimEnd s) as [|c t] eqn:E; [exact I|].
  rewrite Hs in H. exact H.
Qed.

Lemma trim_blank (s : jsstring) : blank s -> trim s = [].
Proof.
  intros H. unfold trim. rewrite (trimStart_blank s H). reflexivity.
Qed.

(** [trim] cuts a blank prefix and a blank suffix, and what is left has
    clean ends. *)
Lemma trim_spec (s : jsstring) :
  (exists a b, s = a ++ trim s ++ b /\ blank a /\ blank b)
  /\ startsClean (trim s) /\ endsClean (trim s).
Proof.
  unfold trim. split; [|split].
  - destruct (trimStart_suffix s) as [a [Ha Hba]].
    destruct (trimEnd_prefix (trimStart s)) as [b [Hb Hbb]].
    exists a, b. split; [|split; assumption].
    rewrite <- Hb. exact Ha.
  - apply trimEnd_keeps_start, trimStart_clean.
  - apply trimEnd_clean.
Qed.

Lemma splitLines_nonempty (s cur : jsstring) : splitLines cur s <> [].
Proof.
  revert cur. induction s as [|c s IH]; intros cur; simpl; [discriminate|].
  destruct (c =? LF)%N; [discriminate|].
  destruct (c =? CR)%N; [|apply IH].
  destruct s as [|d s']; [apply IH|].
  destruct (d =? LF)%N; [discriminate | apply IH].
Qed.

Lemma splitLines_Lines (n : nat) :
  forall s cur, (List.length s <= n)%nat ->
    ~ In LF cur -> ~ pendingCR cur s ->
    Lines (rev cur ++ s) (splitLines cur s).
Proof.
  induction n as [|n IH]; intros s cur Hlen Hcur Hpend.
  - destruct s; [|simpl in Hlen; lia].
    simpl. rewrite app_nil_r. apply Lines_last.
    rewrite <- in_rev. exact Hcur.
  - destruct s as [|c s].
    + simpl. rewrite app_nil_r. apply Lines_last.
      rewrite <- in_rev. exact Hcur.
    + simpl in Hlen. simpl splitLines.
      destruct (c =? LF)%N eqn:EL.
      * apply N.eqb_eq in EL. subst c.
        apply Lines_lf.
        -- rewrite <- in_rev. exact Hcur.
        -- rewrite rev_involutive. intros Hcr. apply Hpend.
           split; [exact Hcr | reflexivity].
        -- apply (IH s []); [lia | intros [] | intros [H _]; discriminate].
      * apply N.eqb_neq in EL.
        assert (Hstep : forall s0, s0 = s ->
                  ~ pendingCR (c :: cur) s0 ->
                  Lines (rev cur ++ c :: s0) (splitLines (c :: cur) s0)).
        { intros s0 -> Hp.
          replace (rev cur ++ c :: s) with (rev (c :: cur) ++ s)
            by (simpl; rewrite <- app_assoc; reflexivity).
          apply IH; [lia | | exact Hp].
          intros [H|H]; [congruence | exact (Hcur H)]. }
        destruct (c =? CR)%N eqn:EC.
        -- apply N.eqb_eq in EC. subst c.
           destruct s as [|d s'].
           ++ apply Hstep; [reflexivity | intros [_ H]; discriminate].
           ++ destruct (d =? LF)%N eqn:ED.
              ** apply N.eqb_eq in ED. subst d.
                 apply Lines_crlf.
                 --- rewrite <- in_rev. exact Hcur.
                 --- apply (IH s' []);
                       [simpl in Hlen; lia | intros [] |
                        intros [H _]; discriminate].
              ** apply N.eqb_neq in ED.
                 apply Hstep; [reflexivity|].
                 intros [_ H]. simpl in H. congruence.
        -- apply N.eqb_neq in EC.
           apply Hstep; [reflexivity|].
           intros [H _]. simpl in H. congruence.
Qed.

(** [split] cuts a text into its lines. *)
Lemma split_Lines (s : jsstring) : Lines s (split s).
Proof.
  apply (@splitLines_Lines (List.length s) s []);
    [lia | intros [] | intros [H _]; discriminate].
Qed.

Lemma Lines_nonempty (s : jsstring) (ls : list jsstring) :
  Lines s ls -> ls <> [].
Proof. intros H. destruct H; discriminate. Qed.

Lemma split_nonempty (s : jsstring) : split s <> [].
Proof. apply splitLines_nonempty. Qed.

Lemma blank_app (a b : jsstring) : blank (a ++ b) <-> blank a /\ blank b.
Proof.
  unfold blank. rewrite forallb_app, andb_true_iff. reflexivity.
Qed.

Lemma Lines_blank (s : jsstring) (ls : list jsstring) :
  Lines s ls -> blank s -> Forall blank ls.
Proof.
  induction 1 as [l _|l rest ls _ _ _ IH|l rest ls _ _ IH]; intros Hb.
  - constructor; [exact Hb | constructor].
  - apply blank_app in Hb. destruct Hb as [Hl Hr].
    constructor; [exact Hl|]. apply IH.
    apply (blank_app [LF] rest) in Hr. tauto.
  - apply blank_app in Hb. destruct Hb as [Hl Hr].
    constructor; [exact Hl|]. apply IH.
    apply (blank_app [CR; LF] rest) in Hr. tauto.
Qed.

Lemma map_trim_keeps_lines (ls : list jsstring) :
  Forall2 (fun line rule => blank line -> rule = []) ls (map trim ls).
Proof.
  induction ls as [|l ls IH]; simpl; constructor;
    [apply trim_blank | exact IH].
Qed.

Lemma map_trim_blank (ls : list jsstring) :
  Forall blank ls -> map trim ls = repeat [] (List.length ls).
Proof.
  induction 1 as [|l ls Hl _ IH]; simpl; [reflexivity|].
  rewrite (trim_blank l Hl), IH. reflexivity.
Qed.

(** A text has one reading as lines: the first line ends at the first
    line feed. *)
Lemma first_LF_unique (a b x y : jsstring) :
  ~ In LF a -> ~ In LF b -> a ++ LF :: x = b ++ LF :: y -> a = b /\ x = y.
Proof.
  revert b. induction a as [|c a IH]; intros [|d b] Ha Hb E; simpl in E.
  - injection E as ->. split; reflexivity.
  - injection E as <- _. exfalso. apply Hb. left. reflexivity.
  - injection E as -> _. exfalso. apply Ha. left. reflexivity.
  - injection E as -> E. destruct (IH b) as [-> ->]; [| |exact E|].
    + intros H. apply Ha. right. exact H.
    + intros H. apply Hb. right. exact H.
    + split; reflexivity.
Qed.

Lemma no_LF_snoc_CR (l : jsstring) : ~ In LF l -> ~ In LF (l ++ [CR]).
Proof.
  intros H Hin. apply in_app_or in Hin. destruct Hin as [Hin|[Hin|[]]].
  - exact (H Hin).
  - discriminate.
Qed.

Lemma crlf_as_lf (l rest : jsstring) :
  l ++ CR :: LF :: rest = (l ++ [CR]) ++ LF :: rest.
Proof. rewrite <- app_assoc. reflexivity. Qed.

Lemma Lines_unique (s : jsstring) (l1 l2 : list jsstring) :
  Lines s l1 -> Lines s l2 -> l1 = l2.
Proof.
  intros H1. revert l2.
  induction H1 as [l Hl|l rest ls Hl Hcr _ IH|l rest ls Hl _ IH];
    intros l2 H2; inversion H2 as [l' Hl' E|l' rest' ls' Hl' Hcr' Hr' E|
                                   l' rest' ls' Hl' Hr' E]; subst.
  - reflexivity.
  - exfalso. apply Hl. apply in_elt.
  - exfalso. apply Hl. rewrite crlf_as_lf. apply in_elt.
  - exfalso. apply Hl'. apply in_elt.
  - destruct (@first_LF_unique _ _ _ _ Hl' Hl E) as [-> ->].
    f_equal. apply IH. exact Hr'.
  - rewrite crlf_as_lf in E.
    destruct (@first_LF_unique _ _ _ _ (@no_LF_snoc_CR _ Hl') Hl E) as [E' _].
    exfalso. apply Hcr. rewrite <- E', rev_app_distr. reflexivity.
  - exfalso. apply Hl'. rewrite crlf_as_lf. apply in_elt.
  - rewrite crlf_as_lf in E.
    destruct (@first_LF_unique _ _ _ _ Hl' (@no_LF_snoc_CR _ Hl) E) as [E' _].
    exfalso. apply Hcr'. rewrite E', rev_app_distr. reflexivity.
  - rewrite !crlf_as_lf in E.
    destruct (@first_LF_unique _ _ _ _ (@no_LF_snoc_CR _ Hl') (@no_LF_snoc_CR _ Hl) E)
      as [E' ->].
    apply app_inj_tail in E'. destruct E' as [-> _].
    f_equal. apply IH. exact Hr'.
Qed.

(** So [split] is the function that [Lines] describes. *)
Lemma split_iff_Lines (s : jsstring) (ls : list jsstring) :
  split s = ls <-> Lines s ls.
Proof.
  split.
  - intros <-. apply split_Lines.
  - intros H. apply (Lines_unique s _ _ (split_Lines s) H).
Qed.

Lemma singleLine_app (a b : jsstring) :
  singleLine (a ++ b) <-> singleLine a /\ singleLine b.
Proof.
  unfold singleLine. rewrite forallb_app, andb_true_iff. reflexivity.
Qed.

Lemma digits_singleLine (d : Decimal.uint) :
  singleLine (lit (NilEmpty.string_of_uint d)).
Proof. induction d; simpl; try reflexivity; exact IHd. Qed.

Lemma decimalNumeral_singleLine (z : Z) : singleLine (decimalNumeral z).
Proof.
  unfold decimalNumeral.
  destruct (Z.to_int z) as [d|d]; simpl;
    (destruct d; [reflexivity | apply digits_singleLine ..]).
Qed.

Lemma upperAscii_singleLine (c : N) :
  isLineTerminator c = false -> isLineTerminator (upperAscii c) = false.
Proof.
  intros H. unfold upperAscii.
  destruct ((97 <=? c) && (c <=? 122))%N eqn:E; [|exact H].
  apply andb_true_iff in E. destruct E as [Hlo Hhi].
  apply N.leb_le in Hlo. apply N.leb_le in Hhi.
  unfold isLineTerminator. simpl.
  repeat (apply orb_false_iff; split); try reflexivity;
    apply N.eqb_neq; lia.
Qed.

(** The lines of a text hold no line feed, and there is one more of them
    than there are line feeds. *)
Lemma Lines_no_LF (s : jsstring) (ls : list jsstring) :
  Lines s ls -> Forall (fun l => ~ In LF l) ls.
Proof.
  induction 1 as [l Hl|l rest ls Hl _ _ IH|l rest ls Hl _ IH];
    constructor; auto.
Qed.

Lemma count_LF_none (l : jsstring) :
  ~ In LF l -> count_occ N.eq_dec l LF = 0%nat.
Proof. apply count_occ_not_In. Qed.

Lemma Lines_length (s : jsstring) (ls : list jsstring) :
  Lines s ls -> List.length ls = S (count_occ N.eq_dec s LF).
Proof.
  induction 1 as [l Hl|l rest ls Hl _ _ IH|l rest ls Hl _ IH]; simpl.
  - rewrite (count_LF_none l Hl). reflexivity.
  - rewrite count_occ_app, (count_LF_none l Hl), IH.
    rewrite count_occ_cons_eq; reflexivity.
  - rewrite count_occ_app, (count_LF_none l Hl), IH.
    rewrite count_occ_cons_neq by discriminate.
    rewrite count_occ_cons_eq; reflexivity.
Qed.

Lemma trimStart_fix (s : jsstring) : startsClean s -> trimStart s = s.
Proof.
  destruct s as [|c s]; simpl; [reflexivity|]. intros ->. reflexivity.
Qed.

Lemma trimEnd_fix (s : jsstring) : endsClean s -> trimEnd s = s.
Proof.
  unfold endsClean, trimEnd. intros H.
  rewrite (trimStart_fix (rev s) H). apply rev_involutive.
Qed.

Lemma trim_idempotent (s : jsstring) : trim (trim s) = trim s.
Proof.
  destruct (trim_spec s) as [_ [Hs He]].
  unfold trim at 1. rewrite (trimStart_fix (trim s) Hs).
  apply trimEnd_fix. exact He.
Qed.

Lemma trim_no_LF (s : jsstring) : ~ In LF s -> ~ In LF (trim s).
Proof.
  intros H Hin. apply H.
  destruct (trim_spec s) as [[a [b [E _]]] _].
  rewrite E. apply in_or_app. right. apply in_or_app. left. exact Hin.
Qed.

(** Joining plain lines with line feeds, or with carriage return and line
    feed, gives a text of which they are the lines. *)
Lemma joinLines_LF (ls : list jsstring) :
  ls <> [] -> Forall plainLine ls -> Lines (joinLines [LF] ls) ls.
Proof.
  induction ls as [|l ls IH]; intros Hne Hall; [contradiction|].
  inversion Hall as [|? ? [Hlf Hcr] Hrest]; subst.
  destruct ls as [|l' ls'].
  - simpl. apply Lines_last. exact Hlf.
  - change (joinLines [LF] (l :: l' :: ls'))
      with (l ++ LF :: joinLines [LF] (l' :: ls')).
    apply Lines_lf; [exact Hlf | exact Hcr |].
    apply IH; [discriminate | exact Hrest].
Qed.

Lemma joinLines_CRLF (ls : list jsstring) :
  ls <> [] -> Forall plainLine ls -> Lines (joinLines [CR; LF] ls) ls.
Proof.
  induction ls as [|l ls IH]; intros Hne Hall; [contradiction|].
  inversion Hall as [|? ? [Hlf Hcr] Hrest]; subst.
  destruct ls as [|l' ls'].
  - simpl. apply Lines_last. exact Hlf.
  - change (joinLines [CR; LF] (l :: l' :: ls'))
      with (l ++ CR :: LF :: joinLines [CR; LF] (l' :: ls')).
    apply Lines_crlf; [exact Hlf |].
    apply IH; [discriminate | exact Hrest].
Qed.

(** The lines of the empty text, and of a text that ends in a line
    feed. *)
Lemma Lines_nil (ls : list jsstring) : Lines [] ls -> ls = [[]].
Proof.
  intros H. remember [] as s eqn:Es.
  destruct H as [l Hl|l rest ls' _ _ _|l rest ls' _ _].
  - subst l. reflexivity.
  - destruct l; discriminate.
  - destruct l; discriminate.
Qed.

Lemma snoc_LF_tail (front rest body : jsstring) :
  front ++ rest = body ++ [LF] -> rest <> [] ->
  exists body', rest = body' ++ [LF].
Proof.
  intros E Hne.
  destruct (exists_last Hne) as [body' [x Hx]]. subst rest.
  rewrite app_assoc in E. apply app_inj_tail in E. destruct E as [_ ->].
  exists body'. reflexivity.
Qed.

Lemma Lines_trailing_LF (s : jsstring) (ls : list jsstring) (body : jsstring) :
  Lines s ls -> s = body ++ [LF] -> exists front, ls = front ++ [[]].
Proof.
  intros H. revert body.
  induction H as [l Hl|l rest ls Hl _ Hrest IH|l rest ls Hl Hrest IH];
    intros body E.
  - exfalso. apply Hl. rewrite E. apply in_elt.
  - destruct rest as [|c rest'].
    + rewrite (Lines_nil ls Hrest). exists [l]. reflexivity.
    + change (l ++ LF :: c :: rest') with (l ++ [LF] ++ c :: rest') in E.
      rewrite app_assoc in E.
      destruct (snoc_LF_tail _ _ _ E) as [body' E']; [discriminate|].
      destruct (IH body' E') as [front ->].
      exists (l :: front). reflexivity.
  - destruct rest as [|c rest'].
    + rewrite (Lines_nil ls Hrest). exists [l]. reflexivity.
    + change (l ++ CR :: LF :: c :: rest')
        with (l ++ [CR; LF] ++ c :: rest') in E.
      rewrite app_assoc in E.
      destruct (snoc_LF_tail _ _ _ E) as [body' E']; [discriminate|].
      destruct (IH body' E') as [front ->].
      exists (l :: front). reflexivity.
Qed.

(** The decimal numeral of an integer: its digits, read back, give the
    integer, and no zero stands in front of them. *)
Lemma digits_are_digits (d : Decimal.uint) :
  forallb isDigit (lit (NilEmpty.string_of_uint d)) = true.
Proof. induction d; simpl; try reflexivity; exact IHd. Qed.

Lemma digits_value_acc (d : Decimal.uint) (acc : positive) :
  fold_left (fun value c => (10 * value + (c - 48))%N)
    (lit (NilEmpty.string_of_uint d)) (Npos acc)
  = Npos (Pos.of_uint_acc d acc).
Proof.
  revert acc. induction d; intros acc; [reflexivity | ..];
    cbn [NilEmpty.string_of_uint lit list_ascii_of_string map fold_left
         Pos.of_uint_acc];
    rewrite <- IHd; f_equal.
  all: match goal with |- context [N_of_ascii ?a] =>
         let v := eval vm_compute in (N_of_ascii a) in
         change (N_of_ascii a) with v end.
  all: lia.
Qed.

Lemma digits_value (d : Decimal.uint) :
  decimalValue (lit (NilEmpty.string_of_uint d)) = Pos.of_uint d.
Proof.
  unfold decimalValue.
  induction d; simpl; try reflexivity; try exact IHd;
    apply (digits_value_acc d).
Qed.

Lemma to_uint_normal (p : positive) (d : Decimal.uint) :
  Pos.to_uint p <> Decimal.D0 d.
Proof.
  intros E.
  pose proof (DecimalPos.Unsigned.to_of (Pos.to_uint p)) as H.
  rewrite DecimalPos.Unsigned.of_to in H. simpl in H.
  destruct (Decimal.nzhead (Pos.to_uint p)) eqn:En;
    [apply DecimalFacts.unorm_0 in En; rewrite <- H in En;
     exact (DecimalPos.Unsigned.to_uint_nonzero p En) | ..];
    rewrite DecimalFacts.unorm_nzhead in H by (rewrite En; discriminate);
    rewrite E in H at 1; symmetry in H;
    exact (DecimalFacts.nzhead_nonzero _ _ H).
Qed.

Lemma numeral_of_positive (p : positive) :
  numeralOf (Npos p) (lit (NilZero.string_of_uint (Pos.to_uint p)))
  /\ hd_error (lit (NilZero.string_of_uint (Pos.to_uint p))) <> Some 48%N.
Proof.
  pose proof (DecimalPos.Unsigned.to_uint_nonnil p) as Hnil.
  pose proof (to_uint_normal p) as Hnorm.
  pose proof (DecimalPos.Unsigned.of_to p) as Hval.
  assert (Hs : NilZero.string_of_uint (Pos.to_uint p)
               = NilEmpty.string_of_uint (Pos.to_uint p)).
  { unfold NilZero.string_of_uint. destruct (Pos.to_uint p); congruence. }
  rewrite Hs.
  assert (Hhd : hd_error (lit (NilEmpty.string_of_uint (Pos.to_uint p)))
                <> Some 48%N).
  { destruct (Pos.to_uint p) as [|d|d|d|d|d|d|d|d|d|d]; simpl;
      try discriminate; congruence. }
  split; [|exact Hhd].
  split; [|split; [|split]].
  - intros E. destruct (Pos.to_uint p); [congruence | discriminate E ..].
  - apply digits_are_digits.
  - intros H. contradiction.
  - rewrite digits_value. exact Hval.
Qed.

Lemma decimalNumeral_positive (m : Z) :
  (0 < m)%Z ->
  numeralOf (Z.to_N m) (decimalNumeral m)
  /\ hd_error (decimalNumeral m) <> Some 48%N.
Proof.
  destruct m as [|p|p]; try lia. intros _.
  apply numeral_of_positive.
Qed.

Lemma decimalNumeral_negative (m : Z) :
  (m < 0)%Z ->
  exists digits,
    decimalNumeral m = 45%N :: digits
    /\ numeralOf (Z.to_N (- m)) digits
    /\ hd_error digits <> Some 48%N.
Proof.
  destruct m as [|p|p]; try lia. intros _.
  exists (lit (NilZero.string_of_uint (Pos.to_uint p))).
  split; [reflexivity|]. apply numeral_of_positive.
Qed.

Lemma decimalNumeral_zero : decimalNumeral 0 = [48%N].
Proof. reflexivity. Qed.

(** A number has one numeral. *)
Lemma decimalValue_snoc (s : jsstring) (c : N) :
  decimalValue (s ++ [c]) = (10 * decimalValue s + (c - 48))%N.
Proof. unfold decimalValue. rewrite fold_left_app. reflexivity. Qed.

Lemma value_grows (s : jsstring) (acc : N) :
  (acc <= fold_left (fun value c => 10 * value + (c - 48)) s acc)%N.
Proof.
  revert acc. induction s as [|c s IH]; intros acc; cbn [fold_left]; [lia|].
  specialize (IH (10 * acc + (c - 48))%N). lia.
Qed.

Lemma isDigit_bounds (c : N) : isDigit c = true -> (48 <= c <= 57)%N.
Proof.
  unfold isDigit. intros H. apply andb_true_iff in H.
  destruct H as [Hlo Hhi]. apply N.leb_le in Hlo. apply N.leb_le in Hhi. lia.
Qed.

Lemma value_positive (s : jsstring) :
  forallb isDigit s = true -> hd_error s <> Some 48%N -> s <> [] ->
  (1 <= decimalValue s)%N.
Proof.
  destruct s as [|c s]; [congruence|]. intros Hd Hhd _.
  simpl in Hd. apply andb_true_iff in Hd. destruct Hd as [Hc _].
  apply isDigit_bounds in Hc.
  assert (c <> 48%N) by (intros ->; apply Hhd; reflexivity).
  unfold decimalValue. cbn [fold_left].
  pose proof (value_grows s (10 * 0 + (c - 48))%N). lia.
Qed.

Lemma strict_numeral_unique (s : jsstring) :
  forall s',
    forallb isDigit s = true -> hd_error s <> Some 48%N ->
    forallb isDigit s' = true -> hd_error s' <> Some 48%N ->
    decimalValue s = decimalValue s' -> s = s'.
Proof.
  induction s as [|c s IH] using rev_ind; intros s' Hd Hhd Hd' Hhd' E.
  - destruct s' as [|c' s']; [reflexivity|].
    pose proof (value_positive (c' :: s') Hd' Hhd'). simpl in E.
    assert (Hne : c' :: s' <> []) by discriminate.
    specialize (H Hne). change (decimalValue []) with 0%N in E. lia.
  - destruct (exists_last (l := s')) as [s0' [c' ->]].
    { intros ->.
      assert (Hne : s ++ [c] <> []) by (destruct s; discriminate).
      pose proof (value_positive (s ++ [c]) Hd Hhd Hne).
      change (decimalValue []) with 0%N in E. lia. }
    rewrite !decimalValue_snoc in E.
    rewrite forallb_app in Hd, Hd'.
    apply andb_true_iff in Hd. destruct Hd as [Hs Hc].
    apply andb_true_iff in Hd'. destruct Hd' as [Hs' Hc'].
    simpl in Hc, Hc'. rewrite andb_true_r in Hc, Hc'.
    apply isDigit_bounds in Hc. apply isDigit_bounds in Hc'.
    assert (Ec : c = c') by lia.
    assert (Es : decimalValue s = decimalValue s0') by lia.
    subst c'. f_equal. apply IH; try assumption.
    + destruct s; [discriminate | exact Hhd].
    + destruct s0'; [discriminate | exact Hhd'].
Qed.

Lemma numeralOf_unique (n : N) (s s' : jsstring) :
  numeralOf n s -> numeralOf n s' -> s = s'.
Proof.
  intros [Hne [Hd [Hz Hv]]] [Hne' [Hd' [Hz' Hv']]].
  assert (Hcase : forall t, t <> [] -> forallb isDigit t = true ->
             (hd_error t = Some 48%N -> t = [48%N]) ->
             (t = [48%N] /\ decimalValue t = 0%N)
             \/ (hd_error t <> Some 48%N /\ (1 <= decimalValue t)%N)).
  { intros t Ht Hdt Hzt.
    destruct (N.eq_dec (hd 0%N t) 48) as [E|E].
    - left. destruct t as [|c t]; [congruence|]. simpl in E. subst c.
      rewrite (Hzt eq_refl). split; reflexivity.
    - right.
      assert (Hh : hd_error t <> Some 48%N).
      { destruct t as [|c t]; [congruence|]. simpl in *. congruence. }
      split; [exact Hh | apply value_positive; assumption]. }
  destruct (Hcase s Hne Hd Hz) as [[-> Hs]|[Hs Hp]];
    destruct (Hcase s' Hne' Hd' Hz') as [[-> Hs']|[Hs' Hp']];
    try reflexivity; try lia.
  apply strict_numeral_unique; try assumption. congruence.
Qed.

End JSFacts.

(** ** What the module computes *)

Module UtilFacts.

Import Util Text JSFacts.

Section Packager.

Variable fs : filesystem.
Variable join : jsstring -> jsstring -> jsstring.
Variable ignores : list jsstring -> jsstring -> bool.
Variable walk : jsstring -> list EntryData.

Lemma getGcloudIgnores_eq (dir : jsstring) :
  getGcloudIgnores fs join dir =
  match fs (join dir (lit ".gcloudignore")) with
  | None => (Returned [], [ExistsSync (join dir (lit ".gcloudignore"))])
  | Some (File content) =>
      (Returned (map trim (split content)),
       [ExistsSync (join dir (lit ".gcloudignore"));
        ReadFileSync (join dir (lit ".gcloudignore"))])
  | Some (Unreadable e) =>
      (Thrown e,
       [ExistsSync (join dir (lit ".gcloudignore"));
        ReadFileSync (join dir (lit ".gcloudignore"))])
  | Some Directory =>
      (Thrown EISDIR,
       [ExistsSync (join dir (lit ".gcloudignore"));
        ReadFileSync (join dir (lit ".gcloudignore"))])
  end.
Proof.
  unfold getGcloudIgnores, existsSync, readFileSync.
  destruct (fs (join dir (lit ".gcloudignore"))) as [[| |]|]; reflexivity.
Qed.

Lemma executor_eq (dirPath outputPath : jsstring) :
  executor fs join ignores walk dirPath outputPath =
  match getGcloudIgnores fs join dirPath with
  | (Thrown e, tr) => (Thrown e, CreateWriteStream outputPath :: tr)
  | (Returned [], tr) =>
      (Returned (started None (walk dirPath)),
       CreateWriteStream outputPath
         :: tr ++ [ArchiveDirectory dirPath false; ArchiveFinalize])
  | (Returned (r :: rs), tr) =>
      (Returned (started (Some (ignoreFilter ignores (r :: rs))) (walk dirPath)),
       CreateWriteStream outputPath
         :: tr ++ tr ++ [ArchiveDirectory dirPath true; ArchiveFinalize])
  end.
Proof.
  unfold executor.
  destruct (getGcloudIgnores fs join dirPath) as [[[|r rs]|e] tr];
    simpl; rewrite ?app_nil_r, <- ?app_assoc; reflexivity.
Qed.

Lemma zipDir_eq (dirPath outputPath : jsstring) (opts : option ZipOptions) :
  zipDir fs join ignores walk dirPath outputPath opts =
  match fs dirPath with
  | None =>
      (Thrown (Error (lit "Unable to find " ++ dirPath)), [ExistsSync dirPath])
  | Some _ =>
      let (r, t) := newPromise (executor fs join ignores walk dirPath outputPath)
      in (r, ExistsSync dirPath :: t)
  end.
Proof.
  unfold zipDir, existsSync.
  destruct (fs dirPath); simpl; [|reflexivity].
  destruct (newPromise _); reflexivity.
Qed.

(** A call on a directory that exists returns a promise, and what the
    promise is follows from what loading the ignore rules gave. *)
Lemma zipDir_found (dirPath outputPath : jsstring) (opts : option ZipOptions) :
  fs dirPath <> None ->
  zipDir fs join ignores walk dirPath outputPath opts =
  match getGcloudIgnores fs join dirPath with
  | (Thrown e, tr) =>
      (Returned (failed e),
       ExistsSync dirPath :: CreateWriteStream outputPath :: tr)
  | (Returned [], tr) =>
      (Returned (started None (walk dirPath)),
       ExistsSync dirPath :: CreateWriteStream outputPath
         :: tr ++ [ArchiveDirectory dirPath false; ArchiveFinalize])
  | (Returned (r :: rs), tr) =>
      (Returned (started (Some (ignoreFilter ignores (r :: rs))) (walk dirPath)),
       ExistsSync dirPath :: CreateWriteStream outputPath
         :: tr ++ tr ++ [ArchiveDirectory dirPath true; ArchiveFinalize])
  end.
Proof.
  intros Hd. rewrite zipDir_eq, executor_eq.
  destruct (fs dirPath); [|congruence].
  destruct (getGcloudIgnores fs join dirPath) as [[[|r rs]|e] tr]; reflexivity.
Qed.

Lemma zipDir_missing (dirPath outputPath : jsstring) (opts : option ZipOptions) :
  fs dirPath = None ->
  zipDir fs join ignores walk dirPath outputPath opts =
  (Thrown (Error (lit "Unable to find " ++ dirPath)), [ExistsSync dirPath]).
Proof. intros Hd. rewrite zipDir_eq, Hd. reflexivity. Qed.

Lemma directory_all (walked : list EntryData) : directory walked None = walked.
Proof. induction walked as [|file rest IH]; simpl; congruence. Qed.

Lemma directory_ignoreFilter (rules : list jsstring) (walked : list EntryData) :
  directory walked (Some (ignoreFilter ignores rules)) =
  filter (fun file => negb (ignores rules (name file))) walked.
Proof.
  induction walked as [|file rest IH]; simpl; [reflexivity|].
  unfold ignoreFilter at 1.
  destruct (negb (ignores rules (name file))); simpl; congruence.
Qed.

End Packager.

Section Events.

Variable outputPath : jsstring.
Variable opts : option ZipOptions.

Lemma run_app (p : packing) (evs evs' : list event) :
  run outputPath opts p (evs ++ evs')
  = run outputPath opts (run outputPath opts p evs) evs'.
Proof. unfold run. apply fold_left_app. Qed.

Lemma run_cons (p : packing) (ev : event) (evs : list event) :
  run outputPath opts p (ev :: evs)
  = run outputPath opts (emit outputPath opts p ev) evs.
Proof. reflexivity. Qed.

Lemma run_snoc (p : packing) (evs : list event) (ev : event) :
  run outputPath opts p (evs ++ [ev])
  = emit outputPath opts (run outputPath opts p evs) ev.
Proof. rewrite run_app. reflexivity. Qed.

(** An entry event leaves the promise alone. *)
Lemma emit_entry_promise (p : packing) (entry : EntryData) :
  promise (emit outputPath opts p (ArchiveEntry entry)) = promise p.
Proof.
  simpl. destruct opts as [[[f|]]|]; reflexivity.
Qed.

(** A settled promise stays as it is. *)
Lemma emit_settled (p : packing) (ev : event) :
  promise p <> Pending ->
  promise (emit outputPath opts p ev) = promise p.
Proof.
  intros H. destruct ev; [apply emit_entry_promise| | |]; simpl;
    destruct (promise p) eqn:E; simpl; congruence.
Qed.

Lemma run_settled (evs : list event) (p : packing) :
  promise p <> Pending ->
  promise (run outputPath opts p evs) = promise p.
Proof.
  revert p. induction evs as [|ev evs IH]; intros p H; [reflexivity|].
  rewrite run_cons, IH; rewrite (emit_settled p ev H); [reflexivity | exact H].
Qed.

(** Fulfilment comes from a [finish] event, with the output path. *)
Lemma run_fulfilled (evs : list event) (p : packing) (v : jsstring) :
  promise (run outputPath opts p evs) = Fulfilled v ->
  promise p = Fulfilled v \/ (v = outputPath /\ In OutputFinish evs).
Proof.
  revert p. induction evs as [|ev evs IH]; intros p H; [left; exact H|].
  rewrite run_cons in H.
  destruct (IH _ H) as [H'|[-> Hin]]; [|right; split; [reflexivity|right; exact Hin]].
  destruct ev as [entry|err|err|].
  - left. rewrite <- H'. symmetry. apply emit_entry_promise.
  - left. simpl in H'. destruct (promise p); simpl in H'; congruence.
  - left. simpl in H'. destruct (promise p); simpl in H'; congruence.
  - simpl in H'. destruct (promise p); simpl in H'.
    + right. split; [congruence | left; reflexivity].
    + left. exact H'.
    + discriminate.
Qed.

(** While no [warning], [error] or [finish] event arrives, the promise
    stays as it is. *)
Lemma run_entries (evs : list event) (p : packing) :
  forallb isEntry evs = true ->
  promise (run outputPath opts p evs) = promise p.
Proof.
  revert p. induction evs as [|ev evs IH]; intros p H; [reflexivity|].
  simpl in H. apply andb_true_iff in H. destruct H as [Hev H].
  rewrite run_cons, (IH _ H).
  destruct ev; try discriminate. apply emit_entry_promise.
Qed.

End Events.

(** The trace of one load of the ignore rules: a test for the ignore file,
    then at most one read of it. *)
Lemma getGcloudIgnores_trace (fs : filesystem)
    (join : jsstring -> jsstring -> jsstring) (dir : jsstring) :
  let p := join dir (lit ".gcloudignore") in
  snd (getGcloudIgnores fs join dir) = [ExistsSync p]
  \/ snd (getGcloudIgnores fs join dir) = [ExistsSync p; ReadFileSync p].
Proof.
  intros p. rewrite getGcloudIgnores_eq. fold p.
  destruct (fs p) as [[| |]|]; simpl; auto.
Qed.

Lemma count_app (f : op -> bool) (a b : list op) :
  count f (a ++ b) = count f a + count f b.
Proof. unfold count. rewrite filter_app, length_app. reflexivity. Qed.

(** The trace of a call of [zipDir], from the trace of a load. *)
Lemma zipDir_trace (fs : filesystem) (join : jsstring -> jsstring -> jsstring)
    (ignores : list jsstring -> jsstring -> bool)
    (walk : jsstring -> list EntryData)
    (dirPath outputPath : jsstring) (opts : option ZipOptions) :
  let tr := snd (getGcloudIgnores fs join dirPath) in
  let t := snd (zipDir fs join ignores walk dirPath outputPath opts) in
  t = [ExistsSync dirPath]
  \/ t = ExistsSync dirPath :: CreateWriteStream outputPath :: tr
  \/ (exists b, t = ExistsSync dirPath :: CreateWriteStream outputPath
                      :: tr ++ [ArchiveDirectory dirPath b; ArchiveFinalize])
  \/ (exists b, t = ExistsSync dirPath :: CreateWriteStream outputPath
                      :: tr ++ tr ++ [ArchiveDirectory dirPath b; ArchiveFinalize]).
Proof.
  intros tr t. subst tr t.
  destruct (fs dirPath) as [n|] eqn:Hd.
  - assert (Hd' : fs dirPath <> None) by congruence.
    rewrite (zipDir_found fs join ignores walk dirPath outputPath opts Hd').
    destruct (getGcloudIgnores fs join dirPath) as [[[|r rs]|e] tr]; simpl.
    + right. right. left. eexists. reflexivity.
    + right. right. right. eexists. reflexivity.
    + right. left. reflexivity.
  - rewrite (zipDir_missing fs join ignores walk dirPath outputPath opts Hd).
    left. reflexivity.
Qed.

(** The promise a call returns is pending, or rejected by its own
    executor; the observer has not been called yet. *)
Lemma zipDir_initial (fs : filesystem) (join : jsstring -> jsstring -> jsstring)
    (ignores : list jsstring -> jsstring -> bool)
    (walk : jsstring -> list EntryData)
    (dirPath outputPath : jsstring) (opts : option ZipOptions)
    (p : packing) (t : list op) :
  zipDir fs join ignores walk dirPath outputPath opts = (Returned p, t) ->
  (exists data, p = started data (walk dirPath)) \/ (exists e, p = failed e).
Proof.
  intros Hz.
  destruct (fs dirPath) as [n|] eqn:Hd.
  - assert (Hd' : fs dirPath <> None) by congruence.
    rewrite (zipDir_found fs join ignores walk dirPath outputPath opts Hd') in Hz.
    destruct (getGcloudIgnores fs join dirPath) as [[[|r rs]|e] tr];
      injection Hz as <- _; eauto.
  - rewrite (zipDir_missing fs join ignores walk dirPath outputPath opts Hd) in Hz.
    discriminate.
Qed.

(** What a sequence of events does to a call: it calls the observer with
    each entry, leaves alone what was given to the archive writer, and
    settles a pending promise by its first event that is not an [entry]
    event. *)
Lemma run_notified (outputPath : jsstring) (opts : option ZipOptions)
    (evs : list event) (p : packing) :
  notified (run outputPath opts p evs)
  = notified p ++ (if observes opts then entriesOf evs else []).
Proof.
  revert p. induction evs as [|ev evs IH]; intros p.
  - simpl. destruct (observes opts); rewrite app_nil_r; reflexivity.
  - rewrite run_cons, IH.
    destruct ev as [entry|err|err|]; simpl; try reflexivity.
    destruct opts as [[[f|]]|]; simpl; try reflexivity.
    rewrite <- app_assoc. reflexivity.
Qed.

Lemma run_archive (outputPath : jsstring) (opts : option ZipOptions)
    (evs : list event) (p : packing) :
  gIgnoreF (run outputPath opts p evs) = gIgnoreF p
  /\ archived (run outputPath opts p evs) = archived p.
Proof.
  revert p. induction evs as [|ev evs IH]; intros p; [split; reflexivity|].
  rewrite run_cons. destruct (IH (emit outputPath opts p ev)) as [-> ->].
  destruct ev as [entry|err|err|]; simpl; try (split; reflexivity).
  destruct opts as [[[f|]]|]; split; reflexivity.
Qed.

Lemma run_first_settling (outputPath : jsstring) (opts : option ZipOptions)
    (evs : list event) (p : packing) :
  promise p = Pending ->
  promise (run outputPath opts p evs) = settles outputPath (firstSettling evs).
Proof.
  revert p. induction evs as [|ev evs IH]; intros p Hp; [exact Hp|].
  rewrite run_cons. destruct ev as [entry|err|err|].
  - apply IH. rewrite emit_entry_promise. exact Hp.
  - rewrite run_settled; simpl; rewrite Hp; [reflexivity | discriminate].
  - rewrite run_settled; simpl; rewrite Hp; [reflexivity | discriminate].
  - rewrite run_settled; simpl; rewrite Hp; [reflexivity | discriminate].
Qed.

End UtilFacts.

(** ** The packaging specification *)

Import Util Text JSFacts UtilFacts.

(** C1: when the ignore rules loaded for a packaging call are not empty,
    the function given to the archive writer keeps an entry if and only if
    the matcher does not ignore its name, and the archive gets exactly the
    walked entries that are kept; when the rules are empty no function is
    given and every walked entry is archived.  With the reference matcher
    and the rules [*.log], [!keep.log], [keep.log] is kept and [other.log]
    is dropped. *)
Theorem C1_filter_follows_ignore_rules :
  (forall fs join ignores walk dirPath outputPath opts p t rules tr,
      zipDir fs join ignores walk dirPath outputPath opts = (Returned p, t) ->
      getGcloudIgnores fs join dirPath = (Returned rules, tr) ->
      (rules <> [] ->
         exists f, gIgnoreF p = Some f
           /\ (forall file, f file = Some file <-> ignores rules (name file) = false)
           /\ (forall file, f file = None <-> ignores rules (name file) = true)
           /\ archived p
              = filter (fun file => negb (ignores rules (name file))) (walk dirPath))
      /\ (rules = [] -> gIgnoreF p = None /\ archived p = walk dirPath))
  /\ (forall fs join walk dirPath outputPath opts p t tr,
        zipDir fs join Gitignore.ignores walk dirPath outputPath opts
          = (Returned p, t) ->
        getGcloudIgnores fs join dirPath
          = (Returned [lit "*.log"; lit "!keep.log"], tr) ->
        exists f, gIgnoreF p = Some f
          /\ f (onlyName (lit "keep.log")) = Some (onlyName (lit "keep.log"))
          /\ f (onlyName (lit "other.log")) = None).
Proof.
  assert (Hfilter : forall ignores rules file,
             (ignoreFilter ignores rules file = Some file
              <-> ignores rules (name file) = false)
             /\ (ignoreFilter ignores rules file = None
                 <-> ignores rules (name file) = true)).
  { intros ignores rules file. unfold ignoreFilter.
    destruct (ignores rules (name file)); simpl;
      split; split; intros H; congruence. }
  assert (Hfound : forall fs join ignores walk dirPath outputPath opts r t,
             zipDir fs join ignores walk dirPath outputPath opts
               = (Returned r, t) -> fs dirPath <> None).
  { intros fs join ignores walk dirPath outputPath opts r t H Hd.
    rewrite (zipDir_missing fs join ignores walk dirPath outputPath opts Hd) in H.
    discriminate. }
  split.
  - intros fs join ignores walk dirPath outputPath opts p t rules tr Hz Hg.
    pose proof (Hfound _ _ _ _ _ _ _ _ _ Hz) as Hd.
    rewrite (zipDir_found fs join ignores walk dirPath outputPath opts Hd), Hg in Hz.
    destruct rules as [|r rs].
    + injection Hz as <- _. split; [congruence|]. intros _.
      split; [reflexivity | apply directory_all].
    + injection Hz as <- _. split; [|discriminate]. intros _.
      exists (ignoreFilter ignores (r :: rs)).
      split; [reflexivity|]. split; [|split].
      * intros file. apply Hfilter.
      * intros file. apply Hfilter.
      * apply directory_ignoreFilter.
  - intros fs join walk dirPath outputPath opts p t tr Hz Hg.
    pose proof (Hfound _ _ _ _ _ _ _ _ _ Hz) as Hd.
    rewrite (zipDir_found fs join Gitignore.ignores walk dirPath outputPath opts Hd), Hg
      in Hz.
    injection Hz as <- _. eexists. split; [reflexivity|].
    split; reflexivity.
Qed.

Lemma C1_filter_follows_ignore_rules_witness :
  exists p t,
    zipDir (Sample.ignoreDisk Sample.logRules) Sample.join Gitignore.ignores
      Sample.walk (lit "/tmp/fn") (lit "/tmp/out.zip") None = (Returned p, t)
    /\ archived p = [Sample.entryNamed "keep.log"; Sample.entryNamed "index.js"]
    /\ exists f, gIgnoreF p = Some f
         /\ f (Sample.entryNamed "keep.log") = Some (Sample.entryNamed "keep.log")
         /\ f (Sample.entryNamed "other.log") = None.
Proof.
  pose (rules := [lit "*.log"; lit "!keep.log"]).
  pose (dir := lit "/tmp/fn").
  pose (tr := [ExistsSync (Sample.join dir (lit ".gcloudignore"));
               ReadFileSync (Sample.join dir (lit ".gcloudignore"))]).
  exists (started (Some (ignoreFilter Gitignore.ignores rules)) (Sample.walk dir)).
  exists (ExistsSync dir :: CreateWriteStream (lit "/tmp/out.zip")
            :: tr ++ tr ++ [ArchiveDirectory dir true; ArchiveFinalize]).
  assert (Hz : zipDir (Sample.ignoreDisk Sample.logRules) Sample.join Gitignore.ignores
                 Sample.walk dir (lit "/tmp/out.zip") None
               = (Returned (started (Some (ignoreFilter Gitignore.ignores rules))
                              (Sample.walk dir)),
                  ExistsSync dir :: CreateWriteStream (lit "/tmp/out.zip")
                    :: tr ++ tr ++ [ArchiveDirectory dir true; ArchiveFinalize]))
    by reflexivity.
  assert (Hg : getGcloudIgnores (Sample.ignoreDisk Sample.logRules) Sample.join dir
               = (Returned rules, tr)) by reflexivity.
  split; [exact Hz|]. split.
  - destruct (proj1 C1_filter_follows_ignore_rules _ _ _ _ _ _ _ _ _ _ _ Hz Hg)
      as [Hne _].
    destruct Hne as [f [_ [_ [_ Ha]]]]; [discriminate|].
    rewrite Ha. reflexivity.
  - exact (proj2 C1_filter_follows_ignore_rules _ _ _ _ _ _ _ _ _ Hz Hg).
Defined.

(** C2, as amended: a missing source directory is reported by an exception
    thrown by the call itself, before any promise exists.  When the
    directory exists the call returns a promise, and from then on failures
    reject it: an exception while the ignore file is loaded, and a warning
    or an error event of the archive writer while the promise is pending.
    A rejection is final, and one call opens the destination, walks the
    directory and finalizes the archive at most once each. *)
Theorem C2_failure_channels (fs : filesystem)
    (join : jsstring -> jsstring -> jsstring)
    (ignores : list jsstring -> jsstring -> bool)
    (walk : jsstring -> list EntryData)
    (dirPath outputPath : jsstring) (opts : option ZipOptions) :
  (fs dirPath = None ->
     zipDir fs join ignores walk dirPath outputPath opts
     = (Thrown (Error (lit "Unable to find " ++ dirPath)), [ExistsSync dirPath]))
  /\ (fs dirPath <> None ->
      exists p t,
        zipDir fs join ignores walk dirPath outputPath opts = (Returned p, t)
        /\ (forall e tr, getGcloudIgnores fs join dirPath = (Thrown e, tr) ->
              promise p = Rejected e)
        /\ (forall evs err, promise (run outputPath opts p evs) = Pending ->
              promise (run outputPath opts p (evs ++ [ArchiveWarning err]))
                = Rejected err
              /\ promise (run outputPath opts p (evs ++ [ArchiveError err]))
                 = Rejected err)
        /\ (forall evs evs' e, promise (run outputPath opts p evs) = Rejected e ->
              promise (run outputPath opts p (evs ++ evs')) = Rejected e)
        /\ count opens t <= 1 /\ count enqueues t <= 1 /\ count finalizes t <= 1).
Proof.
  split; [apply zipDir_missing|]. intros Hd.
  destruct (zipDir fs join ignores walk dirPath outputPath opts) as [r t] eqn:Hz.
  assert (Hr : exists p, r = Returned p
                 /\ forall e tr, getGcloudIgnores fs join dirPath = (Thrown e, tr) ->
                      promise p = Rejected e).
  { rewrite (zipDir_found fs join ignores walk dirPath outputPath opts Hd) in Hz.
    destruct (getGcloudIgnores fs join dirPath) as [[[|r0 rs]|e0] tr0];
      injection Hz as <- _; eexists; (split; [reflexivity|]);
      intros e tr He; try discriminate.
    injection He as <- _. reflexivity. }
  destruct Hr as [p [-> Hthrown]].
  exists p, t. split; [reflexivity|]. split; [exact Hthrown|].
  split; [|split].
  - intros evs err Hp. rewrite !run_snoc. simpl. rewrite Hp. split; reflexivity.
  - intros evs evs' e He. rewrite run_app, run_settled; [exact He|].
    rewrite He. discriminate.
  - pose proof (zipDir_trace fs join ignores walk dirPath outputPath opts) as Ht.
    rewrite Hz in Ht. cbv zeta in Ht. simpl snd in Ht.
    pose proof (getGcloudIgnores_trace fs join dirPath) as Hg. cbv zeta in Hg.
    destruct Hg as [Hg|Hg]; rewrite Hg in Ht;
      destruct Ht as [->|[->|[[b ->]|[b ->]]]]; cbn; lia.
Qed.

Lemma C2_failure_channels_witness :
  zipDir Sample.emptyDisk Sample.join Gitignore.ignores Sample.walk
    (lit "/tmp/fn") (lit "/tmp/out.zip") None
  = (Thrown (Error (lit "Unable to find /tmp/fn")), [ExistsSync (lit "/tmp/fn")])
  /\ exists p t,
       zipDir (Sample.lockedDisk Sample.EACCES) Sample.join Gitignore.ignores
         Sample.walk (lit "/tmp/fn") (lit "/tmp/out.zip") None = (Returned p, t)
       /\ promise p = Rejected Sample.EACCES.
Proof.
  split.
  - apply (proj1 (C2_failure_channels Sample.emptyDisk Sample.join
                    Gitignore.ignores Sample.walk (lit "/tmp/fn")
                    (lit "/tmp/out.zip") None)).
    reflexivity.
  - destruct (proj2 (C2_failure_channels (Sample.lockedDisk Sample.EACCES)
                       Sample.join Gitignore.ignores Sample.walk (lit "/tmp/fn")
                       (lit "/tmp/out.zip") None))
      as [p [t [Hz [Hthrown _]]]]; [discriminate|].
    exists p, t. split; [exact Hz|].
    apply (Hthrown Sample.EACCES
             [ExistsSync (lit "/tmp/fn/.gcloudignore");
              ReadFileSync (lit "/tmp/fn/.gcloudignore")]).
    reflexivity.
Defined.

(** C2, as the specification states it, fails: called on a directory that
    does not exist, [zipDir] throws and returns no promise to reject. *)
Lemma C2_missing_directory_is_thrown :
  zipDir Sample.emptyDisk Sample.join Gitignore.ignores Sample.walk
    (lit "/tmp/fn") (lit "/tmp/out.zip") None
  = (Thrown (Error (lit "Unable to find /tmp/fn")), [ExistsSync (lit "/tmp/fn")])
  /\ ~ (exists p t,
          zipDir Sample.emptyDisk Sample.join Gitignore.ignores Sample.walk
            (lit "/tmp/fn") (lit "/tmp/out.zip") None = (Returned p, t)).
Proof.
  split; [reflexivity|]. intros [p [t H]]. discriminate.
Qed.

(** C3: when the source directory does not exist the call fails at once
    with the error [Unable to find <dirPath>]; all it has done is test for
    the directory, so nothing was opened for writing and the destination is
    neither created nor truncated. *)
Theorem C3_missing_directory_touches_nothing (fs : filesystem)
    (join : jsstring -> jsstring -> jsstring)
    (ignores : list jsstring -> jsstring -> bool)
    (walk : jsstring -> list EntryData)
    (dirPath outputPath : jsstring) (opts : option ZipOptions) :
  fs dirPath = None ->
  exists t,
    zipDir fs join ignores walk dirPath outputPath opts
    = (Thrown (Error (lit "Unable to find " ++ dirPath)), t)
    /\ t = [ExistsSync dirPath]
    /\ Forall (fun o => writes o = None) t
    /\ ~ In (CreateWriteStream outputPath) t.
Proof.
  intros Hd. exists [ExistsSync dirPath].
  split; [apply zipDir_missing; exact Hd|]. split; [reflexivity|]. split.
  - constructor; [reflexivity | constructor].
  - intros [H|[]]. discriminate.
Qed.

Lemma C3_missing_directory_touches_nothing_witness :
  exists t,
    zipDir Sample.emptyDisk Sample.join Gitignore.ignores Sample.walk
      (lit "/tmp/fn") (lit "/tmp/out.zip") None
    = (Thrown (Error (lit "Unable to find " ++ lit "/tmp/fn")), t)
    /\ t = [ExistsSync (lit "/tmp/fn")]
    /\ Forall (fun o => writes o = None) t
    /\ ~ In (CreateWriteStream (lit "/tmp/out.zip")) t.
Proof.
  apply (C3_missing_directory_touches_nothing Sample.emptyDisk Sample.join
           Gitignore.ignores Sample.walk (lit "/tmp/fn") (lit "/tmp/out.zip") None).
  reflexivity.
Defined.

(** C4, as amended: one load of the ignore rules reads at most once, and
    only the file [.gcloudignore] at the root of the directory.  A
    packaging call loads the rules once when there is no ignore file, which
    reads nothing, and twice when there is one that can be read, which
    reads it twice; it never reads the file more than twice, and reads no
    other file. *)
Theorem C4_reads_of_ignore_file (fs : filesystem)
    (join : jsstring -> jsstring -> jsstring)
    (ignores : list jsstring -> jsstring -> bool)
    (walk : jsstring -> list EntryData)
    (dirPath outputPath : jsstring) (opts : option ZipOptions) :
  (forall dir,
      count isRead (snd (getGcloudIgnores fs join dir)) <= 1
      /\ forall p, In (ReadFileSync p) (snd (getGcloudIgnores fs join dir)) ->
           p = join dir (lit ".gcloudignore"))
  /\ (forall p,
        In (ReadFileSync p)
           (snd (zipDir fs join ignores walk dirPath outputPath opts)) ->
        p = join dirPath (lit ".gcloudignore"))
  /\ count isRead (snd (zipDir fs join ignores walk dirPath outputPath opts)) <= 2
  /\ (fs (join dirPath (lit ".gcloudignore")) = None ->
      count isRead (snd (zipDir fs join ignores walk dirPath outputPath opts)) = 0)
  /\ (fs dirPath <> None ->
      forall content,
        fs (join dirPath (lit ".gcloudignore")) = Some (File content) ->
        count isRead (snd (zipDir fs join ignores walk dirPath outputPath opts))
        = 2).
Proof.
  assert (Hload : forall dir,
             count isRead (snd (getGcloudIgnores fs join dir)) <= 1
             /\ forall p, In (ReadFileSync p) (snd (getGcloudIgnores fs join dir)) ->
                  p = join dir (lit ".gcloudignore")).
  { intros dir.
    destruct (getGcloudIgnores_trace fs join dir) as [-> | ->]; cbn.
    - split; [lia|]. intros p [H|[]]. discriminate.
    - split; [lia|]. intros p [H|[H|[]]]; [discriminate|].
      injection H as <-. reflexivity. }
  split; [exact Hload|].
  pose proof (zipDir_trace fs join ignores walk dirPath outputPath opts) as Ht.
  cbv zeta in Ht.
  set (t := snd (zipDir fs join ignores walk dirPath outputPath opts)) in *.
  set (tr := snd (getGcloudIgnores fs join dirPath)) in *.
  destruct (Hload dirPath) as [Hcount Hpath]. fold tr in Hcount, Hpath.
  split; [|split; [|split]].
  - intros p Hin.
    destruct Ht as [Ht|[Ht|[[b Ht]|[b Ht]]]]; rewrite Ht in Hin.
    + destruct Hin as [H|[]]. discriminate.
    + destruct Hin as [H|[H|H]]; try discriminate. apply Hpath, H.
    + destruct Hin as [H|[H|H]]; try discriminate.
      apply in_app_or in H. destruct H as [H|[H|[H|[]]]]; try discriminate.
      apply Hpath, H.
    + destruct Hin as [H|[H|H]]; try discriminate.
      apply in_app_or in H. destruct H as [H|H]; [apply Hpath, H|].
      apply in_app_or in H. destruct H as [H|[H|[H|[]]]]; try discriminate.
      apply Hpath, H.
  - destruct Ht as [Ht|[Ht|[[b Ht]|[b Ht]]]]; rewrite Ht;
      change (ExistsSync dirPath :: CreateWriteStream outputPath :: ?l)
        with ([ExistsSync dirPath; CreateWriteStream outputPath] ++ l);
      rewrite ?count_app; cbn; lia.
  - intros Hnone. subst t.
    destruct (fs dirPath) as [n|] eqn:Hd.
    + assert (Hd' : fs dirPath <> None) by congruence.
      rewrite (zipDir_found fs join ignores walk dirPath outputPath opts Hd').
      rewrite getGcloudIgnores_eq, Hnone. reflexivity.
    + rewrite (zipDir_missing fs join ignores walk dirPath outputPath opts Hd).
      reflexivity.
  - intros Hd content Hfile. subst t.
    rewrite (zipDir_found fs join ignores walk dirPath outputPath opts Hd).
    rewrite getGcloudIgnores_eq, Hfile.
    destruct (map trim (split content)) as [|r rs] eqn:E.
    + exfalso. apply map_eq_nil in E. exact (split_nonempty content E).
    + reflexivity.
Qed.

Lemma C4_reads_of_ignore_file_witness :
  count isRead
    (snd (zipDir Sample.plainDisk Sample.join Gitignore.ignores Sample.walk
            (lit "/tmp/fn") (lit "/tmp/out.zip") None)) = 0
  /\ count isRead
       (snd (zipDir (Sample.ignoreDisk (lit "*.log")) Sample.join
               Gitignore.ignores Sample.walk
               (lit "/tmp/fn") (lit "/tmp/out.zip") None)) = 2.
Proof.
  split.
  - apply (C4_reads_of_ignore_file Sample.plainDisk Sample.join
             Gitignore.ignores Sample.walk (lit "/tmp/fn") (lit "/tmp/out.zip")
             None).
    reflexivity.
  - apply (C4_reads_of_ignore_file (Sample.ignoreDisk (lit "*.log")) Sample.join
             Gitignore.ignores Sample.walk (lit "/tmp/fn") (lit "/tmp/out.zip")
             None) with (content := lit "*.log").
    + discriminate.
    + reflexivity.
Defined.

(** C4, as the specification states it, fails: with an ignore file in the
    source directory, one packaging call reads that file twice. *)
Lemma C4_ignore_file_is_read_twice :
  snd (zipDir (Sample.ignoreDisk (lit "*.log")) Sample.join Gitignore.ignores
         Sample.walk (lit "/tmp/fn") (lit "/tmp/out.zip") None)
  = [ExistsSync (lit "/tmp/fn");
     CreateWriteStream (lit "/tmp/out.zip");
     ExistsSync (lit "/tmp/fn/.gcloudignore");
     ReadFileSync (lit "/tmp/fn/.gcloudignore");
     ExistsSync (lit "/tmp/fn/.gcloudignore");
     ReadFileSync (lit "/tmp/fn/.gcloudignore");
     ArchiveDirectory (lit "/tmp/fn") true;
     ArchiveFinalize]
  /\ ~ (count isRead
          (snd (zipDir (Sample.ignoreDisk (lit "*.log")) Sample.join
                  Gitignore.ignores Sample.walk
                  (lit "/tmp/fn") (lit "/tmp/out.zip") None)) <= 1).
Proof.
  split; [reflexivity|]. cbv. lia.
Qed.

(** C5: [getGcloudIgnores] returns the empty list, and does not fail, when
    the directory has no file [.gcloudignore]; when it has one that can be
    read, it returns the lines of the file in their order, each trimmed:
    cut free of the blank code units at its two ends. *)
Theorem C5_getGcloudIgnores_lines (fs : filesystem)
    (join : jsstring -> jsstring -> jsstring) (dir : jsstring) :
  (fs (join dir (lit ".gcloudignore")) = None ->
     getGcloudIgnores fs join dir
     = (Returned [], [ExistsSync (join dir (lit ".gcloudignore"))]))
  /\ (forall content,
        fs (join dir (lit ".gcloudignore")) = Some (File content) ->
        exists lines,
          Lines content lines
          /\ getGcloudIgnores fs join dir
             = (Returned (map trim lines),
                [ExistsSync (join dir (lit ".gcloudignore"));
                 ReadFileSync (join dir (lit ".gcloudignore"))])
          /\ Forall2
               (fun line rule =>
                  (exists a b, line = a ++ rule ++ b /\ blank a /\ blank b)
                  /\ startsClean rule /\ endsClean rule)
               lines (map trim lines)).
Proof.
  split.
  - intros H. rewrite getGcloudIgnores_eq, H. reflexivity.
  - intros content H. exists (split content).
    split; [apply split_Lines|]. split.
    + rewrite getGcloudIgnores_eq, H. reflexivity.
    + induction (split content) as [|l ls IH]; simpl; constructor.
      * apply trim_spec.
      * exact IH.
Qed.

Lemma C5_getGcloudIgnores_lines_witness :
  getGcloudIgnores Sample.plainDisk Sample.join (lit "/tmp/fn")
  = (Returned [], [ExistsSync (lit "/tmp/fn/.gcloudignore")])
  /\ exists lines,
       Lines Sample.paddedRules lines
       /\ getGcloudIgnores (Sample.ignoreDisk Sample.paddedRules) Sample.join
            (lit "/tmp/fn")
          = (Returned (map trim lines),
             [ExistsSync (lit "/tmp/fn/.gcloudignore");
              ReadFileSync (lit "/tmp/fn/.gcloudignore")])
       /\ map trim lines = [lit "*.log"; lit "!keep.log"; lit ""].
Proof.
  split.
  - apply (C5_getGcloudIgnores_lines Sample.plainDisk Sample.join (lit "/tmp/fn")).
    reflexivity.
  - destruct (proj2 (C5_getGcloudIgnores_lines
                       (Sample.ignoreDisk Sample.paddedRules) Sample.join
                       (lit "/tmp/fn")) Sample.paddedRules eq_refl)
      as [lines [Hl [Hg _]]].
    exists lines. split; [exact Hl|]. split; [exact Hg|].
    injection Hg as Hg. symmetry. exact Hg.
Defined.

(** C6: [formatEntry] does not always return a single line, as the claim
    and the comment of the function say it does: the name of the entry goes
    into the result as it is, so an entry with only a name, when that name
    holds a line feed, gives [[U] (000) a], a line feed and [b => unknown];
    and whenever the name holds a line terminator, so does the result. *)
Theorem C6_formatEntry_breaks_lines (toUpperCase : jsstring -> jsstring)
    (numberToString : Z -> jsstring) :
  (upperCaseOnAscii toUpperCase ->
   formatEntry toUpperCase numberToString (onlyName (lit "a" ++ [LF] ++ lit "b"))
   = lit "[U] (000) a" ++ [LF] ++ lit "b => unknown")
  /\ ~ singleLine
        (formatEntry toUpperCase numberToString
           (onlyName (lit "a" ++ [LF] ++ lit "b")))
  /\ (forall entry,
        ~ singleLine (name entry) ->
        ~ singleLine (formatEntry toUpperCase numberToString entry)).
Proof.
  assert (Hname : forall entry,
             ~ singleLine (name entry) ->
             ~ singleLine (formatEntry toUpperCase numberToString entry)).
  { intros entry Hn Hs. apply Hn. unfold formatEntry in Hs.
    do 5 (apply singleLine_app in Hs; destruct Hs as [_ Hs]).
    apply singleLine_app in Hs. destruct Hs as [Hs _]. exact Hs. }
  split; [|split].
  - intros Hup. unfold formatEntry, onlyName.
    cbn [type mode sourcePath name orString orNumber].
    rewrite (Hup (lit "unknown") eq_refl). reflexivity.
  - apply Hname. discriminate.
  - exact Hname.
Qed.

Lemma C6_formatEntry_breaks_lines_witness :
  formatEntry Sample.toUpperCase Sample.numberToString
    (onlyName (lit "a" ++ [LF] ++ lit "b"))
  = lit "[U] (000) a" ++ [LF] ++ lit "b => unknown"
  /\ ~ singleLine
        (formatEntry Sample.toUpperCase Sample.numberToString
           (onlyName Sample.twoLines)).
Proof.
  split.
  - apply (C6_formatEntry_breaks_lines Sample.toUpperCase
             Sample.numberToString).
    exact (fun s _ => eq_refl).
  - apply (C6_formatEntry_breaks_lines Sample.toUpperCase
             Sample.numberToString).
    discriminate.
Defined.

(** C7: whatever events follow a call of [zipDir], its promise is fulfilled
    only with the destination path and only once the output stream has
    emitted [finish]; and a [finish] that finds the promise pending fulfils
    it with the destination path. *)
Theorem C7_resolves_after_finish (fs : filesystem)
    (join : jsstring -> jsstring -> jsstring)
    (ignores : list jsstring -> jsstring -> bool)
    (walk : jsstring -> list EntryData)
    (dirPath outputPath : jsstring) (opts : option ZipOptions)
    (p : packing) (t : list op) :
  zipDir fs join ignores walk dirPath outputPath opts = (Returned p, t) ->
  (forall evs v,
      promise (run outputPath opts p evs) = Fulfilled v ->
      v = outputPath /\ In OutputFinish evs)
  /\ (forall evs, ~ In OutputFinish evs ->
        forall v, promise (run outputPath opts p evs) <> Fulfilled v)
  /\ (forall evs,
        promise (run outputPath opts p evs) = Pending ->
        promise (run outputPath opts p (evs ++ [OutputFinish]))
        = Fulfilled outputPath)
  /\ (promise p = Pending ->
      forall evs evs', forallb isEntry evs = true ->
        promise (run outputPath opts p (evs ++ OutputFinish :: evs'))
        = Fulfilled outputPath).
Proof.
  intros Hz.
  assert (Hinit : forall v, promise p <> Fulfilled v).
  { intros v. destruct (zipDir_initial _ _ _ _ _ _ _ _ _ Hz) as [[d ->]|[e ->]];
      discriminate. }
  assert (Hful : forall evs v,
             promise (run outputPath opts p evs) = Fulfilled v ->
             v = outputPath /\ In OutputFinish evs).
  { intros evs v H.
    destruct (run_fulfilled outputPath opts evs p v H) as [H'|H']; [|exact H'].
    exfalso. exact (Hinit v H'). }
  split; [exact Hful|]. split; [|split].
  - intros evs Hnot v H. apply Hnot. apply (Hful evs v H).
  - intros evs H. rewrite run_snoc. simpl. rewrite H. reflexivity.
  - intros Hp evs evs' Hevs.
    rewrite run_app, run_cons.
    assert (Hnow : promise (emit outputPath opts (run outputPath opts p evs)
                              OutputFinish) = Fulfilled outputPath).
    { simpl. rewrite (run_entries outputPath opts evs p Hevs), Hp. reflexivity. }
    rewrite run_settled; [exact Hnow|]. rewrite Hnow. discriminate.
Qed.

Lemma C7_resolves_after_finish_witness :
  promise
    (run (lit "/tmp/out.zip") None
       (started None (Sample.walk (lit "/tmp/fn")))
       [ArchiveEntry Sample.indexEntry; OutputFinish])
  = Fulfilled (lit "/tmp/out.zip")
  /\ forall v,
       promise
         (run (lit "/tmp/out.zip") None
            (started None (Sample.walk (lit "/tmp/fn")))
            [ArchiveEntry Sample.indexEntry]) <> Fulfilled v.
Proof.
  pose proof (C7_resolves_after_finish Sample.plainDisk Sample.join
                Gitignore.ignores Sample.walk (lit "/tmp/fn")
                (lit "/tmp/out.zip") None
                (started None (Sample.walk (lit "/tmp/fn")))
                [ExistsSync (lit "/tmp/fn");
                 CreateWriteStream (lit "/tmp/out.zip");
                 ExistsSync (lit "/tmp/fn/.gcloudignore");
                 ArchiveDirectory (lit "/tmp/fn") false;
                 ArchiveFinalize]
                eq_refl) as [_ [Hnot [_ Hfin]]].
  split.
  - apply (Hfin eq_refl [ArchiveEntry Sample.indexEntry] []). reflexivity.
  - apply Hnot. intros [H|[]]. discriminate.
Defined.

(** C8: the listener for [warning] does what the listener for [error]
    does, which is to reject the promise with the error emitted.  A warning
    that finds the promise pending rejects it with that error, and no later
    event, [finish] included, changes that. *)
Theorem C8_warning_is_fatal (outputPath : jsstring) (opts : option ZipOptions)
    (p : packing) (err : error) :
  emit outputPath opts p (ArchiveWarning err)
    = emit outputPath opts p (ArchiveError err)
  /\ promise (emit outputPath opts p (ArchiveWarning err))
     = reject err (promise p)
  /\ (promise p = Pending ->
      promise (emit outputPath opts p (ArchiveWarning err)) = Rejected err
      /\ promise (emit outputPath opts p (ArchiveError err)) = Rejected err)
  /\ (forall evs evs',
        promise (run outputPath opts p evs) = Pending ->
        promise (run outputPath opts p (evs ++ ArchiveWarning err :: evs'))
        = Rejected err
        /\ promise (run outputPath opts p (evs ++ ArchiveError err :: evs'))
           = Rejected err).
Proof.
  split; [reflexivity|]. split; [reflexivity|]. split.
  - intros Hp. simpl. rewrite Hp. split; reflexivity.
  - intros evs evs' Hp. rewrite !run_app, !run_cons.
    assert (Hw : promise (emit outputPath opts (run outputPath opts p evs)
                            (ArchiveWarning err)) = Rejected err)
      by (simpl; rewrite Hp; reflexivity).
    assert (He : promise (emit outputPath opts (run outputPath opts p evs)
                            (ArchiveError err)) = Rejected err)
      by (simpl; rewrite Hp; reflexivity).
    split; (rewrite run_settled; [assumption|]).
    + rewrite Hw. discriminate.
    + rewrite He. discriminate.
Qed.

Lemma C8_warning_is_fatal_witness :
  promise
    (run (lit "/tmp/out.zip") None
       (started None (Sample.walk (lit "/tmp/fn")))
       ([ArchiveEntry Sample.indexEntry]
          ++ ArchiveWarning Sample.EACCES :: [OutputFinish]))
  = Rejected Sample.EACCES.
Proof.
  apply (C8_warning_is_fatal (lit "/tmp/out.zip") None
           (started None (Sample.walk (lit "/tmp/fn"))) Sample.EACCES).
  reflexivity.
Defined.

(** C9: an ignore file that can be read always gives at least one rule,
    so [zipDir] builds its filter from the rules whatever they are.  There
    is one rule for each line of the file, and the rule of a blank line is
    the empty string: when the file holds nothing but blank code units and
    line breaks, the rules are a list, not empty, of empty strings. *)
Theorem C9_blank_lines_are_rules (fs : filesystem)
    (join : jsstring -> jsstring -> jsstring)
    (ignores : list jsstring -> jsstring -> bool)
    (walk : jsstring -> list EntryData)
    (dirPath outputPath : jsstring) (opts : option ZipOptions)
    (content : jsstring) :
  fs (join dirPath (lit ".gcloudignore")) = Some (File content) ->
  exists rules tr,
    getGcloudIgnores fs join dirPath = (Returned rules, tr)
    /\ rules <> []
    /\ (exists lines,
          Lines content lines
          /\ Forall2 (fun line rule => blank line -> rule = []) lines rules)
    /\ (blank content -> exists n, rules = repeat [] (S n))
    /\ (fs dirPath <> None ->
        exists t,
          zipDir fs join ignores walk dirPath outputPath opts
          = (Returned (started (Some (ignoreFilter ignores rules)) (walk dirPath)),
             t)).
Proof.
  intros Hfile.
  exists (map trim (split content)),
         [ExistsSync (join dirPath (lit ".gcloudignore"));
          ReadFileSync (join dirPath (lit ".gcloudignore"))].
  assert (Hg : getGcloudIgnores fs join dirPath
               = (Returned (map trim (split content)),
                  [ExistsSync (join dirPath (lit ".gcloudignore"));
                   ReadFileSync (join dirPath (lit ".gcloudignore"))]))
    by (rewrite getGcloudIgnores_eq, Hfile; reflexivity).
  assert (Hne : map trim (split content) <> []).
  { intros E. apply map_eq_nil in E. exact (split_nonempty content E). }
  split; [exact Hg|]. split; [exact Hne|]. split; [|split].
  - exists (split content).
    split; [apply split_Lines | apply map_trim_keeps_lines].
  - intros Hblank.
    pose proof (Lines_blank content (split content) (split_Lines content) Hblank)
      as Hall.
    rewrite (map_trim_blank _ Hall).
    destruct (split content) as [|l ls]; [contradiction|].
    exists (List.length ls). reflexivity.
  - intros Hd.
    rewrite (zipDir_found fs join ignores walk dirPath outputPath opts Hd), Hg.
    destruct (map trim (split content)) as [|r rs]; [contradiction|].
    eexists. reflexivity.
Qed.

Lemma C9_blank_lines_are_rules_witness :
  exists tr t,
    getGcloudIgnores (Sample.ignoreDisk Sample.blankLines) Sample.join
      (lit "/tmp/fn") = (Returned [[]; []; []], tr)
    /\ zipDir (Sample.ignoreDisk Sample.blankLines) Sample.join
         Gitignore.ignores Sample.walk (lit "/tmp/fn") (lit "/tmp/out.zip") None
       = (Returned (started (Some (ignoreFilter Gitignore.ignores [[]; []; []]))
                      (Sample.walk (lit "/tmp/fn"))), t).
Proof.
  destruct (C9_blank_lines_are_rules (Sample.ignoreDisk Sample.blankLines)
              Sample.join Gitignore.ignores Sample.walk (lit "/tmp/fn")
              (lit "/tmp/out.zip") None Sample.blankLines eq_refl)
    as [rules [tr [Hg [_ [_ [_ Hz]]]]]].
  assert (Hr : rules = [[]; []; []]) by (injection Hg as <- _; reflexivity).
  destruct Hz as [t Hz]; [discriminate|].
  exists tr, t. rewrite <- Hr. split; [exact Hg | exact Hz].
Defined.

(** C10: a mode that is present and 0 is rendered as [000], a source path
    that is present and empty as [unknown], and a type that is present and
    empty as [U]: in each case the result is the one for the entry with
    that field missing. *)
Theorem C10_falsy_fields_render_as_missing
    (toUpperCase : jsstring -> jsstring) (numberToString : Z -> jsstring)
    (entry : EntryData) :
  formatEntry toUpperCase numberToString (withMode (Some 0%Z) entry)
    = formatEntry toUpperCase numberToString (withMode None entry)
  /\ formatEntry toUpperCase numberToString (withSourcePath (Some []) entry)
     = formatEntry toUpperCase numberToString (withSourcePath None entry)
  /\ formatEntry toUpperCase numberToString (withType (Some []) entry)
     = formatEntry toUpperCase numberToString (withType None entry)
  /\ (exists T S,
        formatEntry toUpperCase numberToString (withMode (Some 0%Z) entry)
        = lit "[" ++ T ++ lit "] (000) " ++ name entry ++ lit " => " ++ S)
  /\ (exists T M,
        formatEntry toUpperCase numberToString (withSourcePath (Some []) entry)
        = lit "[" ++ T ++ lit "] (" ++ M ++ lit ") " ++ name entry
            ++ lit " => unknown")
  /\ (upperCaseOnAscii toUpperCase ->
      (exists M S,
          formatEntry toUpperCase numberToString (withType (Some []) entry)
          = lit "[U] (" ++ M ++ lit ") " ++ name entry ++ lit " => " ++ S)
      /\ formatEntry toUpperCase numberToString
           {| name := name entry; mode := Some 0%Z;
              sourcePath := Some []; type := Some [] |}
         = lit "[U] (000) " ++ name entry ++ lit " => unknown").
Proof.
  split; [reflexivity|]. split; [reflexivity|]. split; [reflexivity|].
  split; [|split].
  - eexists _, _. unfold formatEntry. simpl. reflexivity.
  - eexists _, _. unfold formatEntry. simpl. reflexivity.
  - intros Hup.
    assert (Hunknown : toUpperCase (lit "unknown") = lit "UNKNOWN")
      by (rewrite Hup; reflexivity).
    split.
    + eexists _, _. unfold formatEntry, withType.
      cbn [type mode sourcePath name orString truthyString].
      rewrite Hunknown. reflexivity.
    + unfold formatEntry.
      cbn [type mode sourcePath name orString orNumber truthyString].
      rewrite Hunknown. reflexivity.
Qed.

Lemma C10_falsy_fields_render_as_missing_witness :
  formatEntry Sample.toUpperCase Sample.numberToString
    {| name := lit "index.js"; mode := Some 0%Z;
       sourcePath := Some []; type := Some [] |}
  = lit "[U] (000) index.js => unknown".
Proof.
  apply (C10_falsy_fields_render_as_missing Sample.toUpperCase
           Sample.numberToString
           (Sample.entryNamed "index.js")).
  exact (fun s _ => eq_refl).
Defined.

(** ** Further properties of the module *)

(** X1: a call of [zipDir] that returns a pending promise has tested for
    the source directory, then opened the destination, then loaded the
    ignore rules, then given the directory to the archive writer, with a
    filter exactly when it built one, and last finalized the archive.  The
    loads only test for and read the ignore file, and the destination is
    the only path opened for writing. *)
Theorem X1_operations_of_a_started_call (fs : filesystem)
    (join : jsstring -> jsstring -> jsstring)
    (ignores : list jsstring -> jsstring -> bool)
    (walk : jsstring -> list EntryData)
    (dirPath outputPath : jsstring) (opts : option ZipOptions)
    (p : packing) (t : list op) :
  zipDir fs join ignores walk dirPath outputPath opts = (Returned p, t) ->
  promise p = Pending ->
  exists loads,
    t = ExistsSync dirPath :: CreateWriteStream outputPath
          :: loads ++ [ArchiveDirectory dirPath (hasFilter p); ArchiveFinalize]
    /\ Forall (fun o => o = ExistsSync (join dirPath (lit ".gcloudignore"))
                        \/ o = ReadFileSync (join dirPath (lit ".gcloudignore")))
         loads
    /\ (forall o q, In o t -> writes o = Some q -> q = outputPath).
Proof.
  intros Hz Hp.
  assert (Hd : fs dirPath <> None).
  { intros Hd.
    rewrite (zipDir_missing fs join ignores walk dirPath outputPath opts Hd) in Hz.
    discriminate. }
  rewrite (zipDir_found fs join ignores walk dirPath outputPath opts Hd) in Hz.
  assert (Hload : Forall
            (fun o => o = ExistsSync (join dirPath (lit ".gcloudignore"))
                      \/ o = ReadFileSync (join dirPath (lit ".gcloudignore")))
            (snd (getGcloudIgnores fs join dirPath))).
  { destruct (getGcloudIgnores_trace fs join dirPath) as [-> | ->];
      repeat (apply Forall_cons; [auto|]); apply Forall_nil. }
  assert (Hshape : exists loads,
            t = ExistsSync dirPath :: CreateWriteStream outputPath
                  :: loads ++ [ArchiveDirectory dirPath (hasFilter p);
                               ArchiveFinalize]
            /\ Forall (fun o => o = ExistsSync (join dirPath (lit ".gcloudignore"))
                                \/ o = ReadFileSync
                                         (join dirPath (lit ".gcloudignore")))
                 loads).
  { destruct (getGcloudIgnores fs join dirPath) as [[[|r rs]|e] tr];
      simpl in Hload; injection Hz as <- <-.
    - exists tr. split; [reflexivity | exact Hload].
    - exists (tr ++ tr). split.
      + rewrite <- app_assoc. reflexivity.
      + apply Forall_app. split; exact Hload.
    - discriminate. }
  destruct Hshape as [loads [Ht Hloads]].
  exists loads. split; [exact Ht|]. split; [exact Hloads|].
  intros o q Hin Hw. rewrite Ht in Hin.
  destruct Hin as [<-|[<-|Hin]]; [discriminate | injection Hw as <-; reflexivity |].
  apply in_app_or in Hin. destruct Hin as [Hin|[<-|[<-|[]]]]; try discriminate.
  rewrite Forall_forall in Hloads.
  destruct (Hloads o Hin) as [-> | ->]; discriminate.
Qed.

Lemma X1_operations_of_a_started_call_witness :
  exists loads,
    [ExistsSync (lit "/tmp/fn");
     CreateWriteStream (lit "/tmp/out.zip");
     ExistsSync (lit "/tmp/fn/.gcloudignore");
     ArchiveDirectory (lit "/tmp/fn") false;
     ArchiveFinalize]
    = ExistsSync (lit "/tmp/fn") :: CreateWriteStream (lit "/tmp/out.zip")
        :: loads ++ [ArchiveDirectory (lit "/tmp/fn") false; ArchiveFinalize]
    /\ Forall (fun o => o = ExistsSync (lit "/tmp/fn/.gcloudignore")
                        \/ o = ReadFileSync (lit "/tmp/fn/.gcloudignore")) loads.
Proof.
  destruct (X1_operations_of_a_started_call Sample.plainDisk Sample.join
              Gitignore.ignores Sample.walk (lit "/tmp/fn") (lit "/tmp/out.zip")
              None (started None (Sample.walk (lit "/tmp/fn")))
              [ExistsSync (lit "/tmp/fn");
               CreateWriteStream (lit "/tmp/out.zip");
               ExistsSync (lit "/tmp/fn/.gcloudignore");
               ArchiveDirectory (lit "/tmp/fn") false;
               ArchiveFinalize]
              eq_refl eq_refl) as [loads [Ht [Hl _]]].
  exists loads. split; [exact Ht | exact Hl].
Defined.

(** X2: when the source directory exists and its ignore file is there but
    cannot be read, [zipDir] returns a promise already rejected with the
    error of the read.  By then it has opened the destination; it gives
    nothing to the archive writer and does not finalize the archive, and no
    later event settles the promise otherwise. *)
Theorem X2_unreadable_ignore_file (fs : filesystem)
    (join : jsstring -> jsstring -> jsstring)
    (ignores : list jsstring -> jsstring -> bool)
    (walk : jsstring -> list EntryData)
    (dirPath outputPath : jsstring) (opts : option ZipOptions) (e : error) :
  fs dirPath <> None ->
  fs (join dirPath (lit ".gcloudignore")) = Some (Unreadable e) ->
  exists p t,
    zipDir fs join ignores walk dirPath outputPath opts = (Returned p, t)
    /\ promise p = Rejected e
    /\ archived p = []
    /\ t = [ExistsSync dirPath;
            CreateWriteStream outputPath;
            ExistsSync (join dirPath (lit ".gcloudignore"));
            ReadFileSync (join dirPath (lit ".gcloudignore"))]
    /\ count enqueues t = 0
    /\ count finalizes t = 0
    /\ (forall evs, promise (run outputPath opts p evs) = Rejected e).
Proof.
  intros Hd Hfile.
  exists (failed e),
         [ExistsSync dirPath;
          CreateWriteStream outputPath;
          ExistsSync (join dirPath (lit ".gcloudignore"));
          ReadFileSync (join dirPath (lit ".gcloudignore"))].
  split.
  - rewrite (zipDir_found fs join ignores walk dirPath outputPath opts Hd).
    rewrite getGcloudIgnores_eq, Hfile. reflexivity.
  - repeat (split; [reflexivity|]).
    intros evs. rewrite run_settled; [reflexivity | discriminate].
Qed.

Lemma X2_unreadable_ignore_file_witness :
  exists p t,
    zipDir (Sample.lockedDisk Sample.EACCES) Sample.join Gitignore.ignores
      Sample.walk (lit "/tmp/fn") (lit "/tmp/out.zip") None = (Returned p, t)
    /\ promise p = Rejected Sample.EACCES
    /\ In (CreateWriteStream (lit "/tmp/out.zip")) t.
Proof.
  destruct (X2_unreadable_ignore_file (Sample.lockedDisk Sample.EACCES)
              Sample.join Gitignore.ignores Sample.walk (lit "/tmp/fn")
              (lit "/tmp/out.zip") None Sample.EACCES)
    as [p [t [Hz [Hp [_ [Ht _]]]]]]; [discriminate | reflexivity |].
  exists p, t. split; [exact Hz|]. split; [exact Hp|].
  rewrite Ht. right. left. reflexivity.
Defined.

(** X3: after a call of [zipDir], the observer of the options is called
    once with each entry the archive writer emits, in the order of the
    events, whether or not the promise has settled; without an observer
    nothing is called.  No event changes what was given to the archive
    writer. *)
Theorem X3_observer_sees_every_entry (fs : filesystem)
    (join : jsstring -> jsstring -> jsstring)
    (ignores : list jsstring -> jsstring -> bool)
    (walk : jsstring -> list EntryData)
    (dirPath outputPath : jsstring) (opts : option ZipOptions)
    (p : packing) (t : list op) :
  zipDir fs join ignores walk dirPath outputPath opts = (Returned p, t) ->
  forall evs,
    notified (run outputPath opts p evs)
    = (if observes opts then entriesOf evs else [])
    /\ gIgnoreF (run outputPath opts p evs) = gIgnoreF p
    /\ archived (run outputPath opts p evs) = archived p.
Proof.
  intros Hz evs. split; [|apply run_archive].
  rewrite run_notified.
  destruct (zipDir_initial _ _ _ _ _ _ _ _ _ Hz) as [[d ->]|[e ->]];
    reflexivity.
Qed.

Lemma X3_observer_sees_every_entry_witness :
  notified
    (run (lit "/tmp/out.zip") (Some {| onZipEntry := Some (fun _ => tt) |})
       (started None (Sample.walk (lit "/tmp/fn")))
       [ArchiveEntry Sample.indexEntry;
        ArchiveWarning Sample.EACCES;
        ArchiveEntry (Sample.entryNamed "keep.log");
        OutputFinish])
  = [Sample.indexEntry; Sample.entryNamed "keep.log"].
Proof.
  apply (X3_observer_sees_every_entry Sample.plainDisk Sample.join
           Gitignore.ignores Sample.walk (lit "/tmp/fn") (lit "/tmp/out.zip")
           (Some {| onZipEntry := Some (fun _ => tt) |})
           (started None (Sample.walk (lit "/tmp/fn")))
           [ExistsSync (lit "/tmp/fn");
            CreateWriteStream (lit "/tmp/out.zip");
            ExistsSync (lit "/tmp/fn/.gcloudignore");
            ArchiveDirectory (lit "/tmp/fn") false;
            ArchiveFinalize]
           eq_refl).
Defined.

(** X4: the promise of a call that is pending when [zipDir] returns is
    settled by the first event that is a [warning], an [error] or a
    [finish], and by nothing after it: rejected with the error of the
    first two, fulfilled with the output path by the third, and pending as
    long as only entries are emitted.  So a warning or an error that comes
    after [finish] changes nothing. *)
Theorem X4_first_settling_event_decides (fs : filesystem)
    (join : jsstring -> jsstring -> jsstring)
    (ignores : list jsstring -> jsstring -> bool)
    (walk : jsstring -> list EntryData)
    (dirPath outputPath : jsstring) (opts : option ZipOptions)
    (p : packing) (t : list op) :
  zipDir fs join ignores walk dirPath outputPath opts = (Returned p, t) ->
  promise p = Pending ->
  forall evs,
    promise (run outputPath opts p evs)
    = settles outputPath (firstSettling evs).
Proof.
  intros _ Hp evs. apply run_first_settling. exact Hp.
Qed.

Lemma X4_first_settling_event_decides_witness :
  promise
    (run (lit "/tmp/out.zip") None
       (started None (Sample.walk (lit "/tmp/fn")))
       [ArchiveEntry Sample.indexEntry; OutputFinish;
        ArchiveWarning Sample.EACCES])
  = Fulfilled (lit "/tmp/out.zip").
Proof.
  apply (X4_first_settling_event_decides Sample.plainDisk Sample.join
           Gitignore.ignores Sample.walk (lit "/tmp/fn") (lit "/tmp/out.zip")
           None (started None (Sample.walk (lit "/tmp/fn")))
           [ExistsSync (lit "/tmp/fn");
            CreateWriteStream (lit "/tmp/out.zip");
            ExistsSync (lit "/tmp/fn/.gcloudignore");
            ArchiveDirectory (lit "/tmp/fn") false;
            ArchiveFinalize]
           eq_refl eq_refl).
Defined.

(** X5: [getGcloudIgnores] does not tell line feeds from carriage return
    and line feed: lines that hold no line feed and do not end in a
    carriage return load as the same rules, each line trimmed, whether the
    ignore file joins them with the one or with the other. *)
Theorem X5_line_endings (fs fs' : filesystem)
    (join : jsstring -> jsstring -> jsstring) (dir : jsstring)
    (ls : list jsstring) :
  ls <> [] ->
  Forall plainLine ls ->
  fs (join dir (lit ".gcloudignore")) = Some (File (joinLines [LF] ls)) ->
  fs' (join dir (lit ".gcloudignore")) = Some (File (joinLines [CR; LF] ls)) ->
  fst (getGcloudIgnores fs join dir) = Returned (map trim ls)
  /\ fst (getGcloudIgnores fs' join dir) = Returned (map trim ls).
Proof.
  intros Hne Hall Hfs Hfs'.
  rewrite !getGcloudIgnores_eq, Hfs, Hfs'. simpl.
  rewrite (proj2 (split_iff_Lines _ _) (joinLines_LF ls Hne Hall)).
  rewrite (proj2 (split_iff_Lines _ _) (joinLines_CRLF ls Hne Hall)).
  split; reflexivity.
Qed.

Lemma X5_line_endings_witness :
  fst (getGcloudIgnores
         (Sample.ignoreDisk (joinLines [LF] [lit "*.log"; lit " !keep.log"]))
         Sample.join (lit "/tmp/fn"))
  = Returned [lit "*.log"; lit "!keep.log"]
  /\ fst (getGcloudIgnores
            (Sample.ignoreDisk
               (joinLines [CR; LF] [lit "*.log"; lit " !keep.log"]))
            Sample.join (lit "/tmp/fn"))
     = Returned [lit "*.log"; lit "!keep.log"].
Proof.
  apply (X5_line_endings
           (Sample.ignoreDisk (joinLines [LF] [lit "*.log"; lit " !keep.log"]))
           (Sample.ignoreDisk
              (joinLines [CR; LF] [lit "*.log"; lit " !keep.log"]))
           Sample.join (lit "/tmp/fn") [lit "*.log"; lit " !keep.log"]).
  - discriminate.
  - repeat constructor; cbv; intuition discriminate.
  - reflexivity.
  - reflexivity.
Defined.

(** X6: an ignore file that can be read gives one rule more than it holds
    line feeds: an empty file gives one empty rule, and a file that ends in
    a line feed gives an empty rule at the end. *)
Theorem X6_one_rule_per_line (fs : filesystem)
    (join : jsstring -> jsstring -> jsstring) (dir content : jsstring) :
  fs (join dir (lit ".gcloudignore")) = Some (File content) ->
  exists rules tr,
    getGcloudIgnores fs join dir = (Returned rules, tr)
    /\ List.length rules = S (count_occ N.eq_dec content LF)
    /\ (content = [] -> rules = [[]])
    /\ (forall body, content = body ++ [LF] ->
          exists front, rules = front ++ [[]]).
Proof.
  intros Hfile.
  exists (map trim (split content)),
         [ExistsSync (join dir (lit ".gcloudignore"));
          ReadFileSync (join dir (lit ".gcloudignore"))].
  split; [rewrite getGcloudIgnores_eq, Hfile; reflexivity|].
  split; [|split].
  - rewrite length_map. apply Lines_length, split_Lines.
  - intros ->. reflexivity.
  - intros body ->.
    destruct (Lines_trailing_LF _ _ body (split_Lines (body ++ [LF])) eq_refl)
      as [front ->].
    exists (map trim front). rewrite map_app. reflexivity.
Qed.

Lemma X6_one_rule_per_line_witness :
  exists rules tr,
    getGcloudIgnores (Sample.ignoreDisk Sample.paddedRules) Sample.join
      (lit "/tmp/fn") = (Returned rules, tr)
    /\ List.length rules = 3.
Proof.
  destruct (X6_one_rule_per_line (Sample.ignoreDisk Sample.paddedRules)
              Sample.join (lit "/tmp/fn") Sample.paddedRules eq_refl)
    as [rules [tr [Hg [Hn _]]]].
  exists rules, tr. split; [exact Hg | exact Hn].
Defined.

(** X7: every rule [getGcloudIgnores] returns holds no line feed and is
    trimmed already, so that trimming the rules again changes nothing. *)
Theorem X7_rules_are_trimmed_lines (fs : filesystem)
    (join : jsstring -> jsstring -> jsstring) (dir : jsstring)
    (rules : list jsstring) (tr : list op) :
  getGcloudIgnores fs join dir = (Returned rules, tr) ->
  Forall (fun r => ~ In LF r /\ trim r = r) rules
  /\ map trim rules = rules.
Proof.
  intros Hg.
  assert (Htrim : forall ls, Forall (fun l => ~ In LF l) ls ->
             Forall (fun r => ~ In LF r /\ trim r = r) (map trim ls)).
  { induction 1 as [|l ls Hl _ IH]; simpl.
    - constructor.
    - constructor; [|exact IH].
      split; [apply trim_no_LF; exact Hl | apply trim_idempotent]. }
  assert (Hall : Forall (fun r => ~ In LF r /\ trim r = r) rules).
  { rewrite getGcloudIgnores_eq in Hg.
    destruct (fs (join dir (lit ".gcloudignore"))) as [[|content|e]|].
    - discriminate.
    - injection Hg as <- _.
      apply Htrim. apply (Lines_no_LF content). apply split_Lines.
    - discriminate.
    - injection Hg as <- _. constructor. }
  split; [exact Hall|]. clear Hg.
  induction Hall as [|r rs [_ Hr] _ IH]; simpl.
  - reflexivity.
  - rewrite Hr, IH. reflexivity.
Qed.

Lemma X7_rules_are_trimmed_lines_witness :
  map trim [lit "*.log"; lit "!keep.log"; lit ""]
  = [lit "*.log"; lit "!keep.log"; lit ""].
Proof.
  apply (X7_rules_are_trimmed_lines (Sample.ignoreDisk Sample.paddedRules)
           Sample.join (lit "/tmp/fn")
           [lit "*.log"; lit "!keep.log"; lit ""]
           [ExistsSync (lit "/tmp/fn/.gcloudignore");
            ReadFileSync (lit "/tmp/fn/.gcloudignore")]).
  reflexivity.
Defined.

(** X8: [formatEntry] shows of a type no more than the capital of its
    first character: two types written in ASCII that start with the same
    letter, in either case, give the same line. *)
Theorem X8_type_shows_by_its_initial (toUpperCase : jsstring -> jsstring)
    (numberToString : Z -> jsstring) (entry : EntryData) (c c' : N) (t t' : jsstring) :
  upperCaseOnAscii toUpperCase ->
  forallb isAscii (c :: t) = true ->
  forallb isAscii (c' :: t') = true ->
  upperAscii c = upperAscii c' ->
  formatEntry toUpperCase numberToString (withType (Some (c :: t)) entry)
  = formatEntry toUpperCase numberToString (withType (Some (c' :: t')) entry).
Proof.
  intros Hup Ht Ht' Hc. unfold formatEntry, withType.
  cbn [type mode sourcePath name orString truthyString].
  rewrite (Hup _ Ht), (Hup _ Ht'). simpl map. simpl index0.
  rewrite Hc. reflexivity.
Qed.

Lemma X8_type_shows_by_its_initial_witness :
  formatEntry Sample.toUpperCase Sample.numberToString
    (withType (Some (lit "file")) Sample.indexEntry)
  = formatEntry Sample.toUpperCase Sample.numberToString
      (withType (Some (lit "FIFO")) Sample.indexEntry).
Proof.
  apply (X8_type_shows_by_its_initial Sample.toUpperCase
           Sample.numberToString Sample.indexEntry
           102%N 70%N (lit "ile") (lit "IFO")).
  - exact (fun s _ => eq_refl).
  - reflexivity.
  - reflexivity.
  - reflexivity.
Defined.

(** X9: the filter [zipDir] gives to the archive writer decides by the name
    of an entry alone: two entries of the same name are both kept or both
    dropped, whatever their mode, source path or type, and an entry that is
    kept is passed on as it came. *)
Theorem X9_filter_decides_by_name (fs : filesystem)
    (join : jsstring -> jsstring -> jsstring)
    (ignores : list jsstring -> jsstring -> bool)
    (walk : jsstring -> list EntryData)
    (dirPath outputPath : jsstring) (opts : option ZipOptions)
    (p : packing) (t : list op) (f : EntryData -> option EntryData) :
  zipDir fs join ignores walk dirPath outputPath opts = (Returned p, t) ->
  gIgnoreF p = Some f ->
  forall file file',
    name file = name file' ->
    (f file = None <-> f file' = None)
    /\ (f file = Some file \/ f file = None).
Proof.
  intros Hz Hf file file' Hname.
  assert (Hd : fs dirPath <> None).
  { intros Hd.
    rewrite (zipDir_missing fs join ignores walk dirPath outputPath opts Hd) in Hz.
    discriminate. }
  rewrite (zipDir_found fs join ignores walk dirPath outputPath opts Hd) in Hz.
  destruct (getGcloudIgnores fs join dirPath) as [[[|r rs]|e] tr];
    injection Hz as <- _; try discriminate.
  injection Hf as <-. unfold ignoreFilter. rewrite Hname.
  destruct (ignores (r :: rs) (name file')); simpl.
  - split; [tauto | right; reflexivity].
  - split; [split; discriminate | left; reflexivity].
Qed.

Lemma X9_filter_decides_by_name_witness :
  ignoreFilter Gitignore.ignores [lit "*.log"; lit "!keep.log"]
    (Sample.entryNamed "other.log") = None
  <-> ignoreFilter Gitignore.ignores [lit "*.log"; lit "!keep.log"]
        (withType (Some (lit "directory")) (Sample.entryNamed "other.log"))
      = None.
Proof.
  apply (X9_filter_decides_by_name (Sample.ignoreDisk Sample.logRules)
           Sample.join Gitignore.ignores Sample.walk (lit "/tmp/fn")
           (lit "/tmp/out.zip") None
           (started (Some (ignoreFilter Gitignore.ignores
                             [lit "*.log"; lit "!keep.log"]))
              (Sample.walk (lit "/tmp/fn")))
           [ExistsSync (lit "/tmp/fn");
            CreateWriteStream (lit "/tmp/out.zip");
            ExistsSync (lit "/tmp/fn/.gcloudignore");
            ReadFileSync (lit "/tmp/fn/.gcloudignore");
            ExistsSync (lit "/tmp/fn/.gcloudignore");
            ReadFileSync (lit "/tmp/fn/.gcloudignore");
            ArchiveDirectory (lit "/tmp/fn") true;
            ArchiveFinalize]
           (ignoreFilter Gitignore.ignores [lit "*.log"; lit "!keep.log"])
           eq_refl eq_refl
           (Sample.entryNamed "other.log")
           (withType (Some (lit "directory")) (Sample.entryNamed "other.log"))
           eq_refl).
Defined.

(** X10: [formatEntry] returns [[<T>] (<mode>) <name> => <sourcePath>],
    with the name as it is.  The mode is [000] when missing, the decimal
    numeral of a mode that is a safe integer above 0, and a minus sign and
    the numeral of its magnitude for one below 0; the source path is
    [unknown] when missing and the path when it is a string other than the
    empty one; [<T>] is [U] when the type is missing and the capital of the
    first character of a type written in ASCII.  An entry with only a name
    gives [[U] (000) <name> => unknown]. *)
Theorem X10_formatEntry_template (toUpperCase : jsstring -> jsstring)
    (numberToString : Z -> jsstring) :
  upperCaseOnAscii toUpperCase ->
  decimalOnSafeIntegers numberToString ->
  forall entry,
    (exists T M S,
        formatEntry toUpperCase numberToString entry
        = lit "[" ++ T ++ lit "] (" ++ M ++ lit ") " ++ name entry
            ++ lit " => " ++ S
        /\ (mode entry = None -> M = lit "000")
        /\ (forall m, mode entry = Some m -> (0 < m < 2 ^ 53)%Z ->
              numeralOf (Z.to_N m) M)
        /\ (forall m, mode entry = Some m -> (- 2 ^ 53 < m < 0)%Z ->
              exists digits,
                M = 45%N :: digits /\ numeralOf (Z.to_N (- m)) digits)
        /\ (sourcePath entry = None -> S = lit "unknown")
        /\ (forall s, sourcePath entry = Some s -> s <> [] -> S = s)
        /\ (type entry = None -> T = lit "U")
        /\ (forall c t, type entry = Some (c :: t) ->
              forallb isAscii (c :: t) = true -> T = [upperAscii c]))
    /\ (forall n, entry = onlyName n ->
          formatEntry toUpperCase numberToString entry
          = lit "[U] (000) " ++ n ++ lit " => unknown").
Proof.
  intros Hup Hnum entry.
  assert (Hunknown : toUpperCase (lit "unknown") = lit "UNKNOWN")
    by (rewrite Hup; reflexivity).
  assert (Hsafe : forall m, (- 2 ^ 53 < m < 2 ^ 53)%Z -> m <> 0%Z ->
             showNumberOrString numberToString (orNumber (Some m) (lit "000"))
             = decimalNumeral m).
  { intros m Hm Hz. unfold orNumber, truthyNumber.
    destruct (Z.eqb_spec m 0); [contradiction|]. simpl.
    apply Hnum. unfold isSafeInteger. apply Z.ltb_lt. lia. }
  split.
  - exists (showString
              (index0 (toUpperCase (orString (type entry) (lit "unknown"))))),
           (showNumberOrString numberToString
              (orNumber (mode entry) (lit "000"))),
           (orString (sourcePath entry) (lit "unknown")).
    split; [reflexivity|].
    split; [|split; [|split; [|split; [|split; [|split]]]]].
    + intros ->. reflexivity.
    + intros m -> Hm. rewrite Hsafe by lia.
      apply decimalNumeral_positive. lia.
    + intros m -> Hm. rewrite Hsafe by lia.
      destruct (decimalNumeral_negative m) as [digits [E [Hn _]]]; [lia|].
      exists digits. split; assumption.
    + intros ->. reflexivity.
    + intros s -> Hs. destruct s; [contradiction | reflexivity].
    + intros ->. simpl orString. rewrite Hunknown. reflexivity.
    + intros c t -> Hascii. simpl orString. rewrite (Hup _ Hascii). reflexivity.
  - intros n ->. unfold formatEntry, onlyName.
    cbn [type mode sourcePath name orString orNumber].
    rewrite Hunknown. reflexivity.
Qed.

Lemma X10_formatEntry_template_witness :
  formatEntry Sample.toUpperCase Sample.numberToString Sample.indexEntry
  = lit "[F] (420) index.js => /tmp/fn/index.js".
Proof.
  destruct (X10_formatEntry_template Sample.toUpperCase Sample.numberToString
              (fun s _ => eq_refl) (fun z _ => eq_refl) Sample.indexEntry)
    as [[T [M [S [E [_ [HM [_ [_ [HS [_ HT]]]]]]]]]] _].
  assert (EM : M = lit "420").
  { apply (numeralOf_unique 420).
    - apply (HM 420%Z eq_refl). split; reflexivity.
    - repeat split; try reflexivity; discriminate. }
  rewrite E, EM, (HS (lit "/tmp/fn/index.js") eq_refl),
    (HT 102%N (lit "ile") eq_refl eq_refl); [reflexivity | discriminate].
Defined.

(** X11: [formatEntry] adds no line terminator of its own.  For an entry
    whose mode, if any, is a safe integer, whose source path, if any, is a
    single line, and whose type, if any, is a single line of ASCII, the
    result is a single line exactly when the name is. *)
Theorem X11_single_line_as_the_name (toUpperCase : jsstring -> jsstring)
    (numberToString : Z -> jsstring) (entry : EntryData) :
  upperCaseOnAscii toUpperCase ->
  decimalOnSafeIntegers numberToString ->
  (forall m, mode entry = Some m -> isSafeInteger m = true) ->
  (forall s, sourcePath entry = Some s -> singleLine s) ->
  (forall t, type entry = Some t -> forallb isAscii t = true /\ singleLine t) ->
  singleLine (formatEntry toUpperCase numberToString entry)
  <-> singleLine (name entry).
Proof.
  intros Hup Hnum Hmode Hsource Htype.
  assert (Hunknown : toUpperCase (lit "unknown") = lit "UNKNOWN")
    by (rewrite Hup; reflexivity).
  split.
  - intros Hs. unfold formatEntry in Hs.
    do 5 (apply singleLine_app in Hs; destruct Hs as [_ Hs]).
    apply singleLine_app in Hs. destruct Hs as [Hs _]. exact Hs.
  - intros Hname. unfold formatEntry.
    repeat (apply singleLine_app; split); try reflexivity.
    + destruct (type entry) as [[|c t]|]; simpl orString;
        try (rewrite Hunknown; reflexivity).
      destruct (Htype _ eq_refl) as [Hascii Hline].
      rewrite (Hup _ Hascii). simpl.
      unfold singleLine in *. simpl in *.
      apply andb_true_iff in Hline. destruct Hline as [Hc _].
      apply negb_true_iff in Hc.
      rewrite (upperAscii_singleLine c Hc). reflexivity.
    + destruct (mode entry) as [m|]; simpl; [|reflexivity].
      destruct (truthyNumber m); simpl; [|reflexivity].
      rewrite (Hnum m (Hmode m eq_refl)). apply decimalNumeral_singleLine.
    + exact Hname.
    + destruct (sourcePath entry) as [[|c s]|]; simpl; try reflexivity.
      apply (Hsource _ eq_refl).
Qed.

Lemma X11_single_line_as_the_name_witness :
  singleLine
    (formatEntry Sample.toUpperCase Sample.numberToString Sample.indexEntry)
  /\ ~ singleLine
         (formatEntry Sample.toUpperCase Sample.numberToString
            (withSourcePath None
               (withType None (withMode None (onlyName Sample.twoLines))))).
Proof.
  split.
  - apply (X11_single_line_as_the_name Sample.toUpperCase
             Sample.numberToString Sample.indexEntry).
    + exact (fun s _ => eq_refl).
    + exact (fun z _ => eq_refl).
    + intros m Hm. injection Hm as <-. reflexivity.
    + intros s Hs. injection Hs as <-. reflexivity.
    + intros t Ht. injection Ht as <-. split; reflexivity.
    + reflexivity.
  - intros H.
    apply (X11_single_line_as_the_name Sample.toUpperCase
             Sample.numberToString
             (withSourcePath None
                (withType None (withMode None (onlyName Sample.twoLines)))))
      in H.
    + discriminate H.
    + exact (fun s _ => eq_refl).
    + exact (fun z _ => eq_refl).
    + intros m Hm. discriminate Hm.
    + intros s Hs. discriminate Hs.
    + intros t Ht. discriminate Ht.
Defined.
